(** * Windowed list rendering: the [VirtualScroller] component

    A shallow embedding of the virtual scrolling module of the
    performance-optimization demo (class [VirtualScroller], with the two
    helpers of [scripts/utils.js] that its [render] goes through), and the
    properties its specification states about it.

    Conventions of the embedding.
    - JavaScript numbers are integers here ([Z]): pixel offsets, heights and
      indices.  [Math.floor (a / b)] is [a / b] of [Z] and [Math.ceil (a / b)]
      is [ceil_div a b].  The one quotient that is not rounded,
      [scrollPercentage], is kept as an exact rational.
    - A method is a function from the object before the call to the object
      after it, paired with how the call completed ([Normal], or [Throw] when
      an exception leaves the method).  Fields assigned before an exception
      stay assigned.
    - The page around the object is part of the state: whether
      [window.PerformanceUtils] is loaded, the callbacks waiting for the next
      animation frame, and the number of calls of [render] so far (the
      quantity [VirtualScrollPerformanceMonitor] keeps in
      [metrics.renderCount]). *)

From Stdlib Require Import ZArith QArith String List Lia DecimalString.
From stdpp Require Import base option list.

Local Open Scope Z_scope.

(** ** Values *)

Inductive JsError : Set := TypeError.

Inductive Completion : Set :=
| Normal
| Throw (e : JsError).

(** An item object.  A property that is absent reads as [undefined], which
    is [None] here; [generateData] sets all five. *)
Record Item : Set := mkItem {
  id : option Z;
  title : option string;
  description : option string;
  timestamp : option string;
  status : option string
}.

(** [{ ...base, ...patch }]: the properties of [patch] win. *)
Definition spread (base patch : Item) : Item :=
  {| id := from_option Some (id base) (id patch);
     title := from_option Some (title base) (title patch);
     description := from_option Some (description base) (description patch);
     timestamp := from_option Some (timestamp base) (timestamp patch);
     status := from_option Some (status base) (status patch) |}.

(** What a template literal prints for a property. *)
Definition interpolate (v : option string) : string :=
  default "undefined"%string v.

(** What assigning a property to [textContent] leaves as text. *)
Definition textContent (v : option string) : string :=
  default ""%string v.

(** The element [createItem] builds: the style and text a view carries. *)
Record ItemView : Set := mkView {
  className : string;
  top : Z;
  height : Z;
  titleText : string;
  descriptionText : string;
  dateSource : option string;
  statusText : string;
  statusColor : string
}.

(** The host element [#virtual-container]. [clientHeight] is the host's;
    [scrollToCalls] records the [scrollTo] requests, latest first. *)
Record Container : Set := mkContainer {
  clientHeight : Z;
  styleHeight : option Z;
  scrollToCalls : list Z
}.

(** The inner element whose height is the scrollable extent. *)
Record ContentWrapper : Set := mkWrapper {
  wrapperHeight : Z;
  children : list ItemView
}.

Record VirtualScroller : Set := mkScroller {
  container : option Container;
  contentWrapper : option ContentWrapper;
  data : list Item;
  itemHeight : Z;
  visibleItems : Z;
  scrollTop : Z;
  startIndex : Z;
  endIndex : Z;
  (* the page around the object *)
  perfUtils : bool;
  frameQueue : list (list ItemView);
  renderCalls : nat
}.

(** ** Field updates *)

Definition set_container (c : option Container) (vs : VirtualScroller) :=
  mkScroller c (contentWrapper vs) (data vs) (itemHeight vs) (visibleItems vs)
    (scrollTop vs) (startIndex vs) (endIndex vs)
    (perfUtils vs) (frameQueue vs) (renderCalls vs).

Definition set_contentWrapper (w : option ContentWrapper) (vs : VirtualScroller) :=
  mkScroller (container vs) w (data vs) (itemHeight vs) (visibleItems vs)
    (scrollTop vs) (startIndex vs) (endIndex vs)
    (perfUtils vs) (frameQueue vs) (renderCalls vs).

Definition set_data (d : list Item) (vs : VirtualScroller) :=
  mkScroller (container vs) (contentWrapper vs) d (itemHeight vs) (visibleItems vs)
    (scrollTop vs) (startIndex vs) (endIndex vs)
    (perfUtils vs) (frameQueue vs) (renderCalls vs).

Definition set_visibleItems (n : Z) (vs : VirtualScroller) :=
  mkScroller (container vs) (contentWrapper vs) (data vs) (itemHeight vs) n
    (scrollTop vs) (startIndex vs) (endIndex vs)
    (perfUtils vs) (frameQueue vs) (renderCalls vs).

Definition set_scrollTop (x : Z) (vs : VirtualScroller) :=
  mkScroller (container vs) (contentWrapper vs) (data vs) (itemHeight vs)
    (visibleItems vs) x (startIndex vs) (endIndex vs)
    (perfUtils vs) (frameQueue vs) (renderCalls vs).

Definition set_range (s e : Z) (vs : VirtualScroller) :=
  mkScroller (container vs) (contentWrapper vs) (data vs) (itemHeight vs)
    (visibleItems vs) (scrollTop vs) s e
    (perfUtils vs) (frameQueue vs) (renderCalls vs).

Definition set_frameQueue (q : list (list ItemView)) (vs : VirtualScroller) :=
  mkScroller (container vs) (contentWrapper vs) (data vs) (itemHeight vs)
    (visibleItems vs) (scrollTop vs) (startIndex vs) (endIndex vs)
    (perfUtils vs) q (renderCalls vs).

Definition count_render (vs : VirtualScroller) :=
  mkScroller (container vs) (contentWrapper vs) (data vs) (itemHeight vs)
    (visibleItems vs) (scrollTop vs) (startIndex vs) (endIndex vs)
    (perfUtils vs) (frameQueue vs) (S (renderCalls vs)).

Definition set_wrapperHeight (h : Z) (w : ContentWrapper) :=
  mkWrapper h (children w).

Definition set_children (c : list ItemView) (w : ContentWrapper) :=
  mkWrapper (wrapperHeight w) c.

(** ** Arithmetic of the source *)

(** [Math.ceil (a / b)] on integers. *)
Definition ceil_div (a b : Z) : Z := - ((- a) / b).

(** [this.data.length] *)
Definition dataLength (vs : VirtualScroller) : Z := Z.of_nat (length (data vs)).

(** [arr[i]]: [undefined] outside [0 .. length - 1]. *)
Definition index {A : Type} (arr : list A) (i : Z) : option A :=
  if i <? 0 then None else arr !! Z.to_nat i.

(** ** Item views *)

Definition getStatusColor (st : option string) : string :=
  match st with
  | Some s =>
      if String.eqb s "active" then "#28a745"
      else if String.eqb s "pending" then "#ffc107"
      else if String.eqb s "completed" then "#6c757d"
      else "#6c757d"
  | None => "#6c757d"
  end%string.

(** [createItem (itemData, index)].  Reading [itemData.status] when
    [itemData] is [undefined] throws a [TypeError]; that is the [inl]. *)
Definition createItem (h : Z) (itemData : option Item) (i : Z)
  : JsError + ItemView :=
  match itemData with
  | None => inl TypeError
  | Some d =>
      inr {| className := ("virtual-item virtual-item-" ++ interpolate (status d))%string;
             top := i * h;
             height := h;
             titleText := textContent (title d);
             descriptionText := textContent (description d);
             dateSource := timestamp d;
             statusText := textContent (status d);
             statusColor := getStatusColor (status d) |}
  end.

(** The loop of [render]: [for (let i = start; i < end; i++)], appending
    each view to the fragment; [n] is the number of indices left. *)
Fixpoint renderLoop (h : Z) (items : list Item) (i : Z) (n : nat)
    (fragment : list ItemView) : JsError + list ItemView :=
  match n with
  | O => inr fragment
  | S n' =>
      match createItem h (index items i) i with
      | inl e => inl e
      | inr v => renderLoop h items (i + 1) n' (fragment ++ [v])
      end
  end.

(** ** The methods *)

(** [wrapper.appendChild (fragment)]: the views of the fragment move to the
    end of the wrapper's children. *)
Definition appendChild (w : ContentWrapper) (fragment : list ItemView) :=
  set_children (children w ++ fragment) w.

(** [render ()].  With [PerformanceUtils] loaded, [batchDOMUpdates] hands
    the append to [requestAnimationFrame]; without it the append runs at
    once.  [measurePerformance] calls its argument and lets exceptions
    through.  What [batchDOMUpdates] does to the style of [document.body]
    around the append is outside the component and left out. *)
Definition render (vs : VirtualScroller) : VirtualScroller * Completion :=
  let vs := count_render vs in
  match contentWrapper vs with
  | None => (vs, Normal)
  | Some w =>
      let cleared := set_children [] w in
      let vs := set_contentWrapper (Some cleared) vs in
      match renderLoop (itemHeight vs) (data vs) (startIndex vs)
              (Z.to_nat (endIndex vs - startIndex vs)) [] with
      | inl e => (vs, Throw e)
      | inr fragment =>
          if perfUtils vs
          then (set_frameQueue (frameQueue vs ++ [fragment]) vs, Normal)
          else (set_contentWrapper (Some (appendChild cleared fragment)) vs, Normal)
      end
  end.

(** One animation frame of the host: the queued appends run in order. *)
Definition animationFrame (vs : VirtualScroller) : VirtualScroller :=
  set_frameQueue []
    (set_contentWrapper
       ((fun w => foldl appendChild w (frameQueue vs)) <$> contentWrapper vs) vs).

(** [handleScroll (scrollTop)]: the offset is stored first, the range is
    computed from it, and [render] runs only if the range differs from the
    stored one. *)
Definition handleScroll (newScrollTop : Z) (vs : VirtualScroller)
  : VirtualScroller * Completion :=
  let vs := set_scrollTop newScrollTop vs in
  let newStartIndex := newScrollTop / itemHeight vs in
  let newEndIndex := Z.min (newStartIndex + visibleItems vs + 2) (dataLength vs) in
  if negb (newStartIndex =? startIndex vs) || negb (newEndIndex =? endIndex vs)
  then render (set_range newStartIndex newEndIndex vs)
  else (vs, Normal).

(** [handleResize ()]: the height is read from the container. *)
Definition handleResize (vs : VirtualScroller) : VirtualScroller * Completion :=
  match container vs with
  | None => (vs, Normal)
  | Some c =>
      let containerHeight := clientHeight c in
      render (set_visibleItems (ceil_div containerHeight (itemHeight vs)) vs)
  end.

(** [scrollToItem (index)]: [container.scrollTo ({ top: index * itemHeight })]
    for an index of the list, nothing otherwise. *)
Definition scrollToItem (i : Z) (vs : VirtualScroller)
  : VirtualScroller * Completion :=
  match container vs with
  | None => (vs, Normal)
  | Some c =>
      if (i <? 0) || (i >=? dataLength vs) then (vs, Normal)
      else
        let scrollTop := i * itemHeight vs in
        (set_container
           (Some (mkContainer (clientHeight c) (styleHeight c)
                    (scrollTop :: scrollToCalls c))) vs,
         Normal)
  end.

(** [updateItem (index, newData)] *)
Definition updateItem (i : Z) (newData : Item) (vs : VirtualScroller)
  : VirtualScroller * Completion :=
  if (i >=? 0) && (i <? dataLength vs) then
    match index (data vs) i with
    | None => (vs, Normal)
    | Some old =>
        let vs := set_data (<[Z.to_nat i := spread old newData]> (data vs)) vs in
        if (i >=? startIndex vs) && (i <? endIndex vs) then render vs
        else (vs, Normal)
    end
  else (vs, Normal).

(** [if (this.contentWrapper) this.contentWrapper.style.height = ...] *)
Definition updateExtent (vs : VirtualScroller) : VirtualScroller :=
  set_contentWrapper
    (set_wrapperHeight (dataLength vs * itemHeight vs) <$> contentWrapper vs) vs.

(** [addItem (itemData)]: the item goes to the end of the list. *)
Definition addItem (itemData : Item) (vs : VirtualScroller)
  : VirtualScroller * Completion :=
  let newItem :=
    spread (mkItem (Some (dataLength vs + 1)) None None None None) itemData in
  let vs := set_data (data vs ++ [newItem]) vs in
  let vs := updateExtent vs in
  if (dataLength vs - 1 >=? startIndex vs) && (dataLength vs - 1 <? endIndex vs)
  then render vs
  else (vs, Normal).

(** [removeItem (index)]: [splice (index, 1)], the extent, then [render]
    without a test. *)
Definition removeItem (i : Z) (vs : VirtualScroller)
  : VirtualScroller * Completion :=
  if (i >=? 0) && (i <? dataLength vs) then
    let vs := set_data (delete (Z.to_nat i) (data vs)) vs in
    let vs := updateExtent vs in
    render vs
  else (vs, Normal).

(** [getScrollStats ()].  The percentage is the quotient of two numbers that
    is not rounded to an integer; it is kept exact, with the values a
    division by zero gives. *)
Inductive JsNumber : Set :=
| Finite (q : Q)
| PosInfinity
| NegInfinity
| NaN.

Definition js_div (a b : Z) : JsNumber :=
  if b =? 0 then
    if a =? 0 then NaN else if 0 <? a then PosInfinity else NegInfinity
  else Finite (inject_Z a / inject_Z b)%Q.

Definition js_times100 (x : JsNumber) : JsNumber :=
  match x with
  | Finite q => Finite (q * 100)%Q
  | other => other
  end.

Module Stats.

Record t : Set := mk {
  totalItems : Z;
  visibleItems : Z;
  scrollTop : Z;
  startIndex : Z;
  endIndex : Z;
  scrollPercentage : JsNumber
}.

End Stats.

Definition getScrollStats (vs : VirtualScroller) : Stats.t :=
  {| Stats.totalItems := dataLength vs;
     Stats.visibleItems := endIndex vs - startIndex vs;
     Stats.scrollTop := scrollTop vs;
     Stats.startIndex := startIndex vs;
     Stats.endIndex := endIndex vs;
     Stats.scrollPercentage :=
       js_times100 (js_div (scrollTop vs) (dataLength vs * itemHeight vs)) |}.

(** ** Construction *)

Definition decimal (n : Z) : string := NilZero.string_of_int (Z.to_int n).

(** [generateData ()].  The time stamps come from the clock and the random
    generator; [stamp] gives the one of each index. *)
Definition generateData (stamp : Z -> string) (vs : VirtualScroller) :=
  set_data
    (map (fun k : nat =>
            let i := Z.of_nat k in
            {| id := Some (i + 1);
               title := Some ("Item " ++ decimal (i + 1))%string;
               description :=
                 Some ("This is item number " ++ decimal (i + 1)
                         ++ " in the virtual list")%string;
               timestamp := Some (stamp i);
               status :=
                 Some (if i mod 3 =? 0 then "active"%string
                       else if i mod 3 =? 1 then "pending"%string
                       else "completed"%string) |})
         (seq 0 (Z.to_nat 10000)))
    vs.

Definition setupContainer (vs : VirtualScroller) : VirtualScroller :=
  match container vs with
  | None => vs
  | Some c =>
      let c' :=
        mkContainer (clientHeight c) (Some (visibleItems vs * itemHeight vs))
          (scrollToCalls c) in
      set_contentWrapper (Some (mkWrapper (dataLength vs * itemHeight vs) []))
        (set_container (Some c') vs)
  end.

(** [init ()]: an exception of the three steps is caught and logged. *)
Definition init (stamp : Z -> string) (vs : VirtualScroller) : VirtualScroller :=
  fst (render (setupContainer (generateData stamp vs))).

(** [new VirtualScroller ()] on a page whose [#virtual-container] is [host]
    (or missing) and where [PerformanceUtils] is loaded or not. *)
Definition construct (host : option Container) (utils : bool)
    (stamp : Z -> string) : VirtualScroller :=
  init stamp
    {| container := host; contentWrapper := None; data := [];
       itemHeight := 60; visibleItems := 10; scrollTop := 0;
       startIndex := 0; endIndex := 0;
       perfUtils := utils; frameQueue := []; renderCalls := 0 |}.

(** ** Calls and host events, in sequence *)

Inductive Call : Set :=
| HandleScroll (newScrollTop : Z)
| HandleResize
| ScrollToItem (i : Z)
| UpdateItem (i : Z) (newData : Item)
| AddItem (itemData : Item)
| RemoveItem (i : Z)
| HostResized (newClientHeight : Z)
| AnimationFrame.

Definition hostResized (h : Z) (vs : VirtualScroller) : VirtualScroller :=
  set_container
    ((fun c => mkContainer h (styleHeight c) (scrollToCalls c)) <$> container vs) vs.

Definition call (c : Call) (vs : VirtualScroller) : VirtualScroller * Completion :=
  match c with
  | HandleScroll x => handleScroll x vs
  | HandleResize => handleResize vs
  | ScrollToItem i => scrollToItem i vs
  | UpdateItem i d => updateItem i d vs
  | AddItem d => addItem d vs
  | RemoveItem i => removeItem i vs
  | HostResized h => (hostResized h vs, Normal)
  | AnimationFrame => (animationFrame vs, Normal)
  end.

(** An exception ends the call that raised it, not the page: the next call
    starts from the object as the failed one left it. *)
Definition run (cs : list Call) (vs : VirtualScroller) : VirtualScroller :=
  foldl (fun s c => fst (call c s)) vs cs.

(** The views in the wrapper. *)
Definition mounted (vs : VirtualScroller) : list ItemView :=
  from_option children [] (contentWrapper vs).

(** The height of the wrapper: the scrollable extent. *)
Definition extent (vs : VirtualScroller) : option Z :=
  wrapperHeight <$> contentWrapper vs.

(** The demo page: a 600 pixel container, [PerformanceUtils] loaded. *)
Definition demoHost : Container := mkContainer 600 None [].
Definition demoStamp (i : Z) : string := "2024-01-01T00:00:00.000Z"%string.
Definition demo : VirtualScroller := construct (Some demoHost) true demoStamp.

(** * Properties *)

(** ** Arithmetic *)

Lemma ceil_div_bounds (a b : Z) :
  0 < b → b * (ceil_div a b - 1) < a ≤ b * ceil_div a b.
Proof.
  intros Hb. unfold ceil_div.
  pose proof (Z.div_mod (- a) b) as Hdm.
  pose proof (Z.mod_pos_bound (- a) b Hb) as Hr.
  nia.
Qed.

Lemma floor_div_bounds (a b : Z) :
  0 < b → b * (a / b) ≤ a < b * (a / b + 1).
Proof.
  intros Hb.
  pose proof (Z.div_mod a b) as Hdm.
  pose proof (Z.mod_pos_bound a b Hb) as Hr.
  nia.
Qed.

Lemma index_in_range {A : Type} (arr : list A) (i : Z) :
  0 ≤ i < Z.of_nat (length arr) → is_Some (index arr i).
Proof.
  intros [Hlo Hhi]. unfold index.
  destruct (Z.ltb_spec i 0) as [Hneg | _]; [lia |].
  apply lookup_lt_is_Some_2. lia.
Qed.

Lemma index_out_of_range {A : Type} (arr : list A) (i : Z) :
  i < 0 ∨ Z.of_nat (length arr) ≤ i → index arr i = None.
Proof.
  intros Hor. unfold index.
  destruct (Z.ltb_spec i 0) as [Hneg | Hpos]; [reflexivity |].
  apply lookup_ge_None. lia.
Qed.

(** ** Record bookkeeping *)

Lemma set_scrollTop_same (vs : VirtualScroller) :
  set_scrollTop (scrollTop vs) vs = vs.
Proof. destruct vs; reflexivity. Qed.

(** ** The loop of [render] *)

(** The view [createItem] builds for an item that is there. *)
Definition viewOf (h : Z) (d : Item) (i : Z) : ItemView :=
  {| className := ("virtual-item virtual-item-" ++ interpolate (status d))%string;
     top := i * h;
     height := h;
     titleText := textContent (title d);
     descriptionText := textContent (description d);
     dateSource := timestamp d;
     statusText := textContent (status d);
     statusColor := getStatusColor (status d) |}.

(** The views of the [n] items from index [i] on, each at its own index. *)
Definition sliceViews (h : Z) (items : list Item) (i : Z) (n : nat) : list ItemView :=
  zip_with (viewOf h) (take n (drop (Z.to_nat i) items)) (seqZ i (Z.of_nat n)).

Lemma createItem_Some (h : Z) (d : Item) (i : Z) :
  createItem h (Some d) i = inr (viewOf h d i).
Proof. reflexivity. Qed.

Lemma renderLoop_in_bounds (h : Z) (items : list Item) (n : nat) :
  ∀ (i : Z) (fragment : list ItemView),
    0 ≤ i → i + Z.of_nat n ≤ Z.of_nat (length items) →
    renderLoop h items i n fragment = inr (fragment ++ sliceViews h items i n).
Proof.
  induction n as [| n IH]; intros i fragment Hlo Hhi.
  - simpl. unfold sliceViews. simpl. by rewrite app_nil_r.
  - destruct (index_in_range items i) as [d Hd]; [lia |].
    cbn [renderLoop]. rewrite Hd, createItem_Some.
    rewrite IH by lia. rewrite <- app_assoc. f_equal.
    unfold sliceViews, index in *.
    destruct (Z.ltb_spec i 0) as [Hneg | _]; [lia |].
    rewrite (drop_S _ _ _ Hd).
    replace (Z.of_nat (S n)) with (Z.succ (Z.of_nat n)) by lia.
    rewrite (seqZ_cons i) by lia.
    replace (Z.to_nat (i + 1)) with (S (Z.to_nat i)) by lia.
    replace (Z.pred (Z.succ (Z.of_nat n))) with (Z.of_nat n) by lia.
    replace (Z.succ i) with (i + 1) by lia.
    reflexivity.
Qed.

Lemma length_sliceViews (h : Z) (items : list Item) (i : Z) (n : nat) :
  0 ≤ i → i + Z.of_nat n ≤ Z.of_nat (length items) →
  length (sliceViews h items i n) = n.
Proof.
  intros Hlo Hhi. unfold sliceViews.
  rewrite length_zip_with, length_take, length_drop, length_seqZ. lia.
Qed.

Lemma lookup_sliceViews (h : Z) (items : list Item) (i : Z) (n k : nat) (v : ItemView) :
  0 ≤ i →
  sliceViews h items i n !! k = Some v →
  ∃ d, index items (i + Z.of_nat k) = Some d ∧ v = viewOf h d (i + Z.of_nat k).
Proof.
  unfold sliceViews. intros Hlo Hk.
  apply lookup_zip_with_Some in Hk as (d & j & -> & Hd & Hj).
  apply lookup_seqZ in Hj as [-> Hlt].
  apply lookup_take_Some in Hd as [Hd Hkn].
  rewrite lookup_drop in Hd.
  exists d. split; [| reflexivity].
  unfold index.
  destruct (Z.ltb_spec (i + Z.of_nat k) 0) as [Hneg | _]; [lia |].
  rewrite <- Hd. f_equal. lia.
Qed.

(** ** What [render] leaves alone *)

Lemma render_kept (vs : VirtualScroller) :
  container (fst (render vs)) = container vs
  ∧ data (fst (render vs)) = data vs
  ∧ itemHeight (fst (render vs)) = itemHeight vs
  ∧ visibleItems (fst (render vs)) = visibleItems vs
  ∧ scrollTop (fst (render vs)) = scrollTop vs
  ∧ startIndex (fst (render vs)) = startIndex vs
  ∧ endIndex (fst (render vs)) = endIndex vs
  ∧ perfUtils (fst (render vs)) = perfUtils vs.
Proof.
  unfold render. cbn.
  destruct (contentWrapper vs) as [w |]; cbn; [| repeat split; reflexivity].
  destruct (renderLoop _ _ _ _ _) as [e | fragment]; cbn;
    [repeat split; reflexivity |].
  destruct (perfUtils vs) eqn:Hutils; cbn; rewrite ?Hutils; repeat split; reflexivity.
Qed.

Lemma render_counted (vs : VirtualScroller) :
  renderCalls (fst (render vs)) = S (renderCalls vs).
Proof.
  unfold render. cbn.
  destruct (contentWrapper vs) as [w |]; cbn; [| reflexivity].
  destruct (renderLoop _ _ _ _ _) as [e | fragment]; cbn; [reflexivity |].
  destruct (perfUtils vs); reflexivity.
Qed.

Lemma render_extent (vs : VirtualScroller) :
  extent (fst (render vs)) = extent vs.
Proof.
  unfold render, extent. cbn.
  destruct (contentWrapper vs) as [w |] eqn:Hw; cbn; rewrite ?Hw; [| reflexivity].
  destruct (renderLoop _ _ _ _ _) as [e | fragment]; cbn; [reflexivity |].
  destruct (perfUtils vs); reflexivity.
Qed.

(** A range inside the list: every index the loop reads holds an item. *)
Definition range_ok (vs : VirtualScroller) : Prop :=
  0 ≤ startIndex vs ∧ startIndex vs ≤ endIndex vs ∧ endIndex vs ≤ dataLength vs.

(** The batch of views [render] builds from the fields of the object. *)
Definition batch (vs : VirtualScroller) : list ItemView :=
  sliceViews (itemHeight vs) (data vs) (startIndex vs)
    (Z.to_nat (endIndex vs - startIndex vs)).

Lemma render_in_bounds (vs : VirtualScroller) (w : ContentWrapper) :
  contentWrapper vs = Some w →
  0 ≤ startIndex vs → endIndex vs ≤ dataLength vs →
  render vs =
    (if perfUtils vs
     then set_frameQueue (frameQueue vs ++ [batch vs])
            (set_contentWrapper (Some (set_children [] w)) (count_render vs))
     else set_contentWrapper (Some (set_children (batch vs) w)) (count_render vs),
     Normal).
Proof.
  intros Hw Hlo Hhi. unfold render, batch, dataLength in *. cbn. rewrite Hw. cbn.
  destruct (Z.to_nat (endIndex vs - startIndex vs)) as [| n] eqn:Hn.
  - cbn. destruct (perfUtils vs); reflexivity.
  - rewrite renderLoop_in_bounds by lia. cbn.
    destruct (perfUtils vs); reflexivity.
Qed.

Lemma render_normal (vs : VirtualScroller) :
  0 ≤ startIndex vs → endIndex vs ≤ dataLength vs → snd (render vs) = Normal.
Proof.
  intros Hlo Hhi.
  destruct (contentWrapper vs) as [w |] eqn:Hw.
  - by rewrite (render_in_bounds vs w).
  - unfold render. cbn. by rewrite Hw.
Qed.

(** ** [handleScroll] *)

Definition newStart (x : Z) (vs : VirtualScroller) : Z := x / itemHeight vs.

Definition newEnd (x : Z) (vs : VirtualScroller) : Z :=
  Z.min (newStart x vs + visibleItems vs + 2) (dataLength vs).

Lemma handleScroll_unchanged (x : Z) (vs : VirtualScroller) :
  newStart x vs = startIndex vs → newEnd x vs = endIndex vs →
  handleScroll x vs = (set_scrollTop x vs, Normal).
Proof.
  intros Hs He. unfold handleScroll. cbn.
  change (dataLength (set_scrollTop x vs)) with (dataLength vs).
  change (x / itemHeight vs) with (newStart x vs).
  change (Z.min (newStart x vs + visibleItems vs + 2) (dataLength vs))
    with (newEnd x vs).
  rewrite Hs, He, !Z.eqb_refl. reflexivity.
Qed.

Lemma handleScroll_changed (x : Z) (vs : VirtualScroller) :
  newStart x vs ≠ startIndex vs ∨ newEnd x vs ≠ endIndex vs →
  handleScroll x vs =
    render (set_range (newStart x vs) (newEnd x vs) (set_scrollTop x vs)).
Proof.
  intros Hne. unfold handleScroll, newStart, newEnd in *. cbn.
  change (dataLength (set_scrollTop x vs)) with (dataLength vs).
  destruct (Z.eqb_spec (x / itemHeight vs) (startIndex vs)) as [Hs | Hs];
    destruct (Z.eqb_spec
                (Z.min (x / itemHeight vs + visibleItems vs + 2) (dataLength vs))
                (endIndex vs)) as [He | He]; cbn; try reflexivity.
  tauto.
Qed.

Lemma handleScroll_cases (x : Z) (vs : VirtualScroller) :
  (newStart x vs = startIndex vs ∧ newEnd x vs = endIndex vs)
  ∨ (newStart x vs ≠ startIndex vs ∨ newEnd x vs ≠ endIndex vs).
Proof. lia. Qed.

Lemma handleScroll_post (x : Z) (vs : VirtualScroller) :
  let vs' := fst (handleScroll x vs) in
  scrollTop vs' = x
  ∧ startIndex vs' = newStart x vs
  ∧ endIndex vs' = newEnd x vs
  ∧ data vs' = data vs
  ∧ itemHeight vs' = itemHeight vs
  ∧ visibleItems vs' = visibleItems vs.
Proof.
  cbn zeta.
  destruct (handleScroll_cases x vs) as [[Hs He] | Hne].
  - rewrite handleScroll_unchanged by assumption. cbn. rewrite Hs, He. auto 10.
  - rewrite handleScroll_changed by assumption.
    destruct (render_kept
                (set_range (newStart x vs) (newEnd x vs) (set_scrollTop x vs)))
      as (_ & Hd & Hh & Hv & Ht & Hs & He & _).
    rewrite Hd, Hh, Hv, Ht, Hs, He. cbn. auto 10.
Qed.

(** C1. For a scroll offset inside the scrollable extent, [0 ≤ x < N × H],
    [handleScroll x] completes and leaves [startIndex = floor (x / H)] and
    [endIndex = min (startIndex + visibleItems + 2, N)]: the overscan
    buffer is the constant 2.  The last part says that the quotient of the
    integer model is the floor. *)
Theorem handleScroll_visible_range (vs : VirtualScroller) (x : Z) :
  0 ≤ x < dataLength vs * itemHeight vs →
  snd (handleScroll x vs) = Normal
  ∧ startIndex (fst (handleScroll x vs)) = x / itemHeight vs
  ∧ endIndex (fst (handleScroll x vs))
    = Z.min (x / itemHeight vs + visibleItems vs + 2) (dataLength vs)
  ∧ itemHeight vs * (x / itemHeight vs) ≤ x
    < itemHeight vs * (x / itemHeight vs + 1).
Proof.
  intros Hx.
  assert (Hh : 0 < itemHeight vs).
  { unfold dataLength in Hx. nia. }
  destruct (handleScroll_post x vs) as (_ & Hs & He & _).
  split; [| split; [exact Hs | split; [exact He | by apply floor_div_bounds]]].
  destruct (handleScroll_cases x vs) as [[Hs' He'] | Hne].
  - by rewrite handleScroll_unchanged.
  - rewrite handleScroll_changed by assumption.
    apply render_normal; cbn.
    + unfold newStart. apply Z.div_pos; lia.
    + unfold newEnd. apply Z.le_min_r.
Qed.

Lemma handleScroll_visible_range_witness :
  0 ≤ 120 < dataLength demo * itemHeight demo
  ∧ startIndex (fst (handleScroll 120 demo)) = 120 / itemHeight demo
  ∧ endIndex (fst (handleScroll 120 demo))
    = Z.min (120 / itemHeight demo + visibleItems demo + 2) (dataLength demo).
Proof.
  assert (Hx : 0 ≤ 120 < dataLength demo * itemHeight demo).
  { vm_compute. split; [intros Hc; discriminate Hc | reflexivity]. }
  split; [exact Hx |].
  destruct (handleScroll_visible_range demo 120 Hx) as (_ & Hs & He & _).
  split; [exact Hs | exact He].
Defined.

(** C2. Calling [handleScroll x] a second time with the same [x] changes
    nothing and renders nothing: the first call left the range computed
    from [x] in the object, so the second finds it equal.  The two calls
    together call [render] at most once. *)
Theorem handleScroll_twice (vs : VirtualScroller) (x : Z) :
  handleScroll x (fst (handleScroll x vs)) = (fst (handleScroll x vs), Normal)
  ∧ (renderCalls (fst (handleScroll x (fst (handleScroll x vs))))
     ≤ S (renderCalls vs))%nat.
Proof.
  destruct (handleScroll_post x vs) as (Ht & Hs & He & Hd & Hh & Hv).
  assert (Hsame : handleScroll x (fst (handleScroll x vs))
                  = (fst (handleScroll x vs), Normal)).
  { rewrite handleScroll_unchanged.
    - rewrite <- Ht at 1. by rewrite set_scrollTop_same.
    - unfold newStart in *. by rewrite Hh, Hs.
    - unfold newEnd, newStart, dataLength in *. by rewrite Hh, Hv, Hd, He. }
  split; [exact Hsame |].
  rewrite Hsame. cbn [fst].
  destruct (handleScroll_cases x vs) as [[Hs' He'] | Hne].
  - rewrite handleScroll_unchanged by assumption. cbn. lia.
  - rewrite handleScroll_changed by assumption. rewrite render_counted. cbn. lia.
Qed.

(** C10. When the range computed from [x] is the stored one, [handleScroll x]
    writes the offset and nothing else: no call of [render], the same range,
    the same mounted views.  [getScrollStats] then reports [x] and the
    percentage [x / (N × H) × 100] of it. *)
Theorem handleScroll_same_range_keeps_offset (vs : VirtualScroller) (x : Z) :
  x / itemHeight vs = startIndex vs →
  Z.min (x / itemHeight vs + visibleItems vs + 2) (dataLength vs) = endIndex vs →
  handleScroll x vs = (set_scrollTop x vs, Normal)
  ∧ scrollTop (fst (handleScroll x vs)) = x
  ∧ startIndex (fst (handleScroll x vs)) = startIndex vs
  ∧ endIndex (fst (handleScroll x vs)) = endIndex vs
  ∧ renderCalls (fst (handleScroll x vs)) = renderCalls vs
  ∧ mounted (fst (handleScroll x vs)) = mounted vs
  ∧ frameQueue (fst (handleScroll x vs)) = frameQueue vs
  ∧ Stats.scrollTop (getScrollStats (fst (handleScroll x vs))) = x
  ∧ Stats.startIndex (getScrollStats (fst (handleScroll x vs))) = startIndex vs
  ∧ Stats.endIndex (getScrollStats (fst (handleScroll x vs))) = endIndex vs
  ∧ Stats.scrollPercentage (getScrollStats (fst (handleScroll x vs)))
    = js_times100 (js_div x (dataLength vs * itemHeight vs))
  ∧ (dataLength vs * itemHeight vs ≠ 0 →
     Stats.scrollPercentage (getScrollStats (fst (handleScroll x vs)))
     = Finite (inject_Z x / inject_Z (dataLength vs * itemHeight vs) * 100)%Q).
Proof.
  intros Hs He.
  rewrite (handleScroll_unchanged x vs Hs He). cbn.
  repeat (split; [reflexivity |]).
  intros Hne. unfold js_div.
  change (dataLength (set_scrollTop x vs)) with (dataLength vs).
  destruct (Z.eqb_spec (dataLength vs * itemHeight vs) 0) as [Hz | _]; [lia |].
  reflexivity.
Qed.

Lemma handleScroll_same_range_keeps_offset_witness :
  let vs := run [HandleScroll 120] demo in
  (150 / itemHeight vs = startIndex vs
   ∧ Z.min (150 / itemHeight vs + visibleItems vs + 2) (dataLength vs) = endIndex vs)
  ∧ scrollTop (fst (handleScroll 150 vs)) = 150
  ∧ renderCalls (fst (handleScroll 150 vs)) = renderCalls vs
  ∧ Stats.scrollPercentage (getScrollStats (fst (handleScroll 150 vs)))
    = Finite (inject_Z 150 / inject_Z (dataLength vs * itemHeight vs) * 100)%Q.
Proof.
  intros vs.
  assert (Hs : 150 / itemHeight vs = startIndex vs) by (vm_compute; reflexivity).
  assert (He : Z.min (150 / itemHeight vs + visibleItems vs + 2) (dataLength vs)
               = endIndex vs) by (vm_compute; reflexivity).
  assert (Hn : dataLength vs * itemHeight vs ≠ 0)
    by (vm_compute; intros Hc; discriminate Hc).
  split; [split; [exact Hs | exact He] |].
  destruct (handleScroll_same_range_keeps_offset vs 150 Hs He)
    as (_ & Ht & _ & _ & Hr & _ & _ & _ & _ & _ & _ & Hp).
  split; [exact Ht | split; [exact Hr | exact (Hp Hn)]].
Defined.

(** ** [handleResize] *)

Lemma handleResize_range_kept (vs : VirtualScroller) :
  startIndex (fst (handleResize vs)) = startIndex vs
  ∧ endIndex (fst (handleResize vs)) = endIndex vs.
Proof.
  unfold handleResize. destruct (container vs) as [c |]; [| by split].
  destruct (render_kept (set_visibleItems (ceil_div (clientHeight c) (itemHeight vs)) vs))
    as (_ & _ & _ & _ & _ & Hs & He & _).
  by rewrite Hs, He.
Qed.

Lemma handleResize_without_container (vs : VirtualScroller) :
  container vs = None → handleResize vs = (vs, Normal).
Proof. intros Hc. unfold handleResize. by rewrite Hc. Qed.

(** C5. With the container in place, every [handleResize] sets
    [visibleItems] to [ceil (clientHeight / H)] and calls [render] exactly
    once, whatever the height read (the one already in use included) and
    whether or not the range changed.  The last part says that [ceil_div]
    is the ceiling. *)
Theorem handleResize_recomputes_and_renders (vs : VirtualScroller) (c : Container) :
  container vs = Some c →
  visibleItems (fst (handleResize vs)) = ceil_div (clientHeight c) (itemHeight vs)
  ∧ renderCalls (fst (handleResize vs)) = S (renderCalls vs)
  ∧ (0 < itemHeight vs →
     itemHeight vs * (visibleItems (fst (handleResize vs)) - 1) < clientHeight c
     ∧ clientHeight c ≤ itemHeight vs * visibleItems (fst (handleResize vs))).
Proof.
  intros Hc. unfold handleResize. rewrite Hc.
  destruct (render_kept (set_visibleItems (ceil_div (clientHeight c) (itemHeight vs)) vs))
    as (_ & _ & _ & Hv & _).
  rewrite Hv, render_counted. cbn.
  split; [reflexivity | split; [reflexivity |]].
  intros Hh. apply ceil_div_bounds, Hh.
Qed.

Lemma handleResize_recomputes_and_renders_witness :
  container demo = Some (mkContainer 600 (Some 600) [])
  ∧ visibleItems (fst (handleResize demo)) = 10
  ∧ renderCalls (fst (handleResize demo)) = S (renderCalls demo).
Proof.
  assert (Hc : container demo = Some (mkContainer 600 (Some 600) []))
    by (vm_compute; reflexivity).
  split; [exact Hc |].
  destruct (handleResize_recomputes_and_renders demo _ Hc) as (Hv & Hr & _).
  split; [exact Hv | exact Hr].
Defined.

(** ** [scrollToItem] *)

(** C6. [scrollToItem i] with [i] outside [0 .. N - 1] completes normally
    and returns the object as it was; with [i] inside, the one effect is a
    [scrollTo] request to the container for the offset [i × H]. *)
Theorem scrollToItem_request (vs : VirtualScroller) (i : Z) :
  (i < 0 ∨ dataLength vs ≤ i → scrollToItem i vs = (vs, Normal))
  ∧ (∀ c : Container,
       container vs = Some c → 0 ≤ i < dataLength vs →
       scrollToItem i vs
       = (set_container
            (Some (mkContainer (clientHeight c) (styleHeight c)
                     (i * itemHeight vs :: scrollToCalls c))) vs,
          Normal)).
Proof.
  unfold scrollToItem. split.
  - intros Hout. destruct (container vs) as [c |]; [| reflexivity].
    destruct (Z.ltb_spec i 0) as [Hneg | Hpos]; [reflexivity |].
    destruct (Z.geb_spec i (dataLength vs)) as [Hge | Hlt]; [reflexivity | lia].
  - intros c Hc Hin. rewrite Hc.
    destruct (Z.ltb_spec i 0) as [Hneg | Hpos]; [lia |].
    destruct (Z.geb_spec i (dataLength vs)) as [Hge | Hlt]; [lia | reflexivity].
Qed.

Lemma scrollToItem_request_witness :
  (dataLength demo ≤ 10000 ∧ 0 ≤ 9999 < dataLength demo)
  ∧ scrollToItem 10000 demo = (demo, Normal)
  ∧ (scrollToCalls <$> container (fst (scrollToItem 9999 demo))) = Some [599940].
Proof.
  assert (Hout : dataLength demo ≤ 10000)
    by (vm_compute; intros Hc; discriminate Hc).
  assert (Hin : 0 ≤ 9999 < dataLength demo)
    by (vm_compute; split; [intros Hc; discriminate Hc | reflexivity]).
  assert (Hc : container demo = Some (mkContainer 600 (Some 600) []))
    by (vm_compute; reflexivity).
  split; [split; [exact Hout | exact Hin] |].
  split.
  - exact (proj1 (scrollToItem_request demo 10000) (or_intror Hout)).
  - rewrite (proj2 (scrollToItem_request demo 9999) _ Hc Hin). reflexivity.
Defined.

(** ** Changing the list *)

(** The test of the source for "the item is currently visible". *)
Definition visibleIndex (i : Z) (vs : VirtualScroller) : bool :=
  (i >=? startIndex vs) && (i <? endIndex vs).

(** The page after the first scroll event at the top: range [0, 12). *)
Definition scrolledToTop : VirtualScroller := run [HandleScroll 0] demo.

(** The page scrolled to the last item: range [9999, 10000). *)
Definition scrolledToEnd : VirtualScroller := run [HandleScroll 599940] demo.

(** The rule the specification gives for the three list operations: a call
    that renders has changed an index inside the current range. *)
Definition renders_only_when_visible (c : Call) (i : Z) (vs : VirtualScroller) : Prop :=
  renderCalls (fst (call c vs)) ≠ renderCalls vs → startIndex vs ≤ i < endIndex vs.

Lemma updateItem_renders (vs : VirtualScroller) (i : Z) (d : Item) :
  0 ≤ i < dataLength vs →
  renderCalls (fst (updateItem i d vs))
  = if visibleIndex i vs then S (renderCalls vs) else renderCalls vs.
Proof.
  intros Hi. unfold updateItem, visibleIndex.
  destruct (Z.geb_spec i 0) as [_ | Hneg]; [| lia].
  destruct (Z.ltb_spec i (dataLength vs)) as [_ | Hge]; [| lia]. cbn.
  destruct (index_in_range (data vs) i Hi) as [old ->]. cbn.
  destruct ((i >=? startIndex vs) && (i <? endIndex vs)); [| reflexivity].
  by rewrite render_counted.
Qed.

Lemma length_after_push (vs : VirtualScroller) (d : Item) :
  dataLength (updateExtent (set_data (data vs ++ [d]) vs)) = dataLength vs + 1.
Proof. unfold dataLength. cbn. rewrite length_app. cbn. lia. Qed.

Lemma addItem_renders (vs : VirtualScroller) (d : Item) :
  renderCalls (fst (addItem d vs))
  = (if visibleIndex (dataLength vs) vs then S (renderCalls vs) else renderCalls vs)
  ∧ extent (fst (addItem d vs))
    = (λ _, (dataLength vs + 1) * itemHeight vs) <$> extent vs
  ∧ dataLength (fst (addItem d vs)) = dataLength vs + 1.
Proof.
  unfold addItem, visibleIndex.
  set (newItem := spread _ d).
  rewrite length_after_push.
  replace (dataLength vs + 1 - 1) with (dataLength vs) by lia.
  change (startIndex (updateExtent _)) with (startIndex vs).
  change (endIndex (updateExtent _)) with (endIndex vs).
  assert (He : extent (updateExtent (set_data (data vs ++ [newItem]) vs))
               = (λ _, (dataLength vs + 1) * itemHeight vs) <$> extent vs).
  { unfold extent, updateExtent. cbn.
    change (dataLength (set_data (data vs ++ [newItem]) vs))
      with (dataLength (updateExtent (set_data (data vs ++ [newItem]) vs))).
    rewrite length_after_push. by destruct (contentWrapper vs). }
  destruct ((dataLength vs >=? startIndex vs) && (dataLength vs <? endIndex vs)).
  - rewrite render_counted, render_extent.
    destruct (render_kept (updateExtent (set_data (data vs ++ [newItem]) vs)))
      as (_ & Hd & _).
    unfold dataLength at 2. rewrite Hd.
    fold (dataLength (updateExtent (set_data (data vs ++ [newItem]) vs))).
    by rewrite length_after_push.
  - cbn [fst]. by rewrite length_after_push.
Qed.

Lemma length_after_splice (vs : VirtualScroller) (i : Z) :
  0 ≤ i < dataLength vs →
  dataLength (updateExtent (set_data (delete (Z.to_nat i) (data vs)) vs))
  = dataLength vs - 1.
Proof.
  intros Hi. unfold dataLength in *. cbn.
  rewrite length_delete; [lia |]. apply lookup_lt_is_Some_2. lia.
Qed.

Lemma removeItem_renders (vs : VirtualScroller) (i : Z) :
  0 ≤ i < dataLength vs →
  renderCalls (fst (removeItem i vs)) = S (renderCalls vs)
  ∧ extent (fst (removeItem i vs))
    = (λ _, (dataLength vs - 1) * itemHeight vs) <$> extent vs
  ∧ dataLength (fst (removeItem i vs)) = dataLength vs - 1.
Proof.
  intros Hi. unfold removeItem.
  destruct (Z.geb_spec i 0) as [_ | Hneg]; [| lia].
  destruct (Z.ltb_spec i (dataLength vs)) as [_ | Hge]; [| lia]. cbn [andb].
  rewrite render_counted, render_extent.
  destruct (render_kept (updateExtent (set_data (delete (Z.to_nat i) (data vs)) vs)))
    as (_ & Hd & _).
  split; [reflexivity | split].
  - unfold extent, updateExtent. cbn.
    change (dataLength (set_data (delete (Z.to_nat i) (data vs)) vs))
      with (dataLength (updateExtent (set_data (delete (Z.to_nat i) (data vs)) vs))).
    rewrite length_after_splice by assumption. by destruct (contentWrapper vs).
  - unfold dataLength at 1. rewrite Hd.
    fold (dataLength (updateExtent (set_data (delete (Z.to_nat i) (data vs)) vs))).
    by apply length_after_splice.
Qed.

(** C3, as the code has it.  [updateItem] and [addItem] call [render]
    exactly when the index they change is inside the current range, and
    otherwise leave the views alone.  [removeItem] of a valid index always
    calls [render] once, wherever the index lies.  [addItem] and
    [removeItem] set the scrollable extent to the new [N × H]. *)
Theorem list_changes_and_render (vs : VirtualScroller) (i : Z) (d : Item) :
  0 ≤ i < dataLength vs →
  renderCalls (fst (updateItem i d vs))
  = (if visibleIndex i vs then S (renderCalls vs) else renderCalls vs)
  ∧ renderCalls (fst (addItem d vs))
    = (if visibleIndex (dataLength vs) vs then S (renderCalls vs) else renderCalls vs)
  ∧ extent (fst (addItem d vs))
    = (λ _, (dataLength vs + 1) * itemHeight vs) <$> extent vs
  ∧ renderCalls (fst (removeItem i vs)) = S (renderCalls vs)
  ∧ extent (fst (removeItem i vs))
    = (λ _, (dataLength vs - 1) * itemHeight vs) <$> extent vs.
Proof.
  intros Hi.
  destruct (addItem_renders vs d) as (Ha & Hae & _).
  destruct (removeItem_renders vs i Hi) as (Hr & Hre & _).
  pose proof (updateItem_renders vs i d Hi) as Hu.
  auto.
Qed.

Lemma list_changes_and_render_witness :
  0 ≤ 5000 < dataLength scrolledToTop
  ∧ renderCalls (fst (updateItem 5000 (mkItem None (Some "x"%string) None None None)
                        scrolledToTop))
    = renderCalls scrolledToTop
  ∧ renderCalls (fst (removeItem 5000 scrolledToTop)) = S (renderCalls scrolledToTop)
  ∧ extent (fst (removeItem 5000 scrolledToTop)) = Some (9999 * 60).
Proof.
  assert (Hi : 0 ≤ 5000 < dataLength scrolledToTop)
    by (vm_compute; split; [intros Hc; discriminate Hc | reflexivity]).
  split; [exact Hi |].
  destruct (list_changes_and_render scrolledToTop 5000
              (mkItem None (Some "x"%string) None None None) Hi)
    as (Hu & _ & _ & Hr & He).
  split; [| split; [exact Hr |]].
  - rewrite Hu. vm_compute. reflexivity.
  - rewrite He. vm_compute. reflexivity.
Defined.

(** C3, as the specification has it, fails: with the range [0, 12),
    [removeItem 5000] does call [render], although 5000 is not in the
    range.  (The extent does become [9999 × 60].) *)
Lemma removeItem_renders_outside_range :
  (startIndex scrolledToTop, endIndex scrolledToTop) = (0, 12)
  ∧ extent (fst (removeItem 5000 scrolledToTop)) = Some (9999 * 60)
  ∧ ¬ renders_only_when_visible (RemoveItem 5000) 5000 scrolledToTop.
Proof.
  split; [vm_compute; reflexivity | split; [vm_compute; reflexivity |]].
  unfold renders_only_when_visible. intros Hclaim.
  assert (Hrange : startIndex scrolledToTop ≤ 5000 < endIndex scrolledToTop).
  { apply Hclaim. vm_compute. intros Hc. discriminate Hc. }
  revert Hrange. vm_compute. intros [_ Hlt]. discriminate Hlt.
Qed.

(** ** What [render] mounts *)

Lemma length_batch (vs : VirtualScroller) :
  range_ok vs → Z.of_nat (length (batch vs)) = endIndex vs - startIndex vs.
Proof.
  intros (Hlo & Hle & Hhi). unfold batch, dataLength in *.
  rewrite length_sliceViews by lia. lia.
Qed.

Lemma animationFrame_single (vs : VirtualScroller) (w : ContentWrapper)
    (fragment : list ItemView) :
  contentWrapper vs = Some w → children w = [] → frameQueue vs = [fragment] →
  mounted (animationFrame vs) = fragment.
Proof.
  intros Hw Hc Hq. unfold mounted, animationFrame. cbn.
  rewrite Hw, Hq. cbn. by rewrite Hc.
Qed.

(** The sentence of the specification about the cost of a render, read on
    the page once the render has run. *)
Definition render_cost_claim (vs : VirtualScroller) : Prop :=
  Z.of_nat (length (mounted vs)) = endIndex vs - startIndex vs
  ∧ Z.of_nat (length (mounted vs)) ≠ dataLength vs.

(** The demo page after its container grew to 600000 pixels and the resize
    was handled; then after a scroll event at the top and one animation
    frame. *)
Definition tallContainer : VirtualScroller :=
  fst (handleResize (hostResized 600000 demo)).

Definition tallViewport : VirtualScroller :=
  animationFrame (fst (handleScroll 0 tallContainer)).

Lemma children_foldl_appendChild (q : list (list ItemView)) :
  ∀ w : ContentWrapper,
    children (foldl appendChild w q) = children w ++ concat q.
Proof.
  induction q as [| fragment q IH]; intros w; cbn.
  - by rewrite app_nil_r.
  - rewrite IH. cbn. by rewrite app_assoc.
Qed.

Lemma animationFrame_mounted (vs : VirtualScroller) (w : ContentWrapper) :
  contentWrapper vs = Some w →
  mounted (animationFrame vs) = children w ++ concat (frameQueue vs).
Proof.
  intros Hw. unfold mounted, animationFrame. cbn. rewrite Hw. cbn.
  apply children_foldl_appendChild.
Qed.

(** A scroll that changes the range, followed by one frame, on a page with
    [PerformanceUtils] and no views waiting: the mounted views are the
    batch of the new range. *)
Lemma handleScroll_then_frame (vs : VirtualScroller) (w : ContentWrapper) (x : Z) :
  contentWrapper vs = Some w → perfUtils vs = true →
  concat (frameQueue vs) = [] →
  newStart x vs ≠ startIndex vs ∨ newEnd x vs ≠ endIndex vs →
  0 ≤ newStart x vs ≤ newEnd x vs →
  Z.of_nat (length (mounted (animationFrame (fst (handleScroll x vs)))))
  = newEnd x vs - newStart x vs
  ∧ startIndex (animationFrame (fst (handleScroll x vs))) = newStart x vs
  ∧ endIndex (animationFrame (fst (handleScroll x vs))) = newEnd x vs
  ∧ dataLength (animationFrame (fst (handleScroll x vs))) = dataLength vs.
Proof.
  intros Hw Hutils Hq Hne [Hlo Hle].
  rewrite (handleScroll_changed x vs Hne).
  set (st := set_range (newStart x vs) (newEnd x vs) (set_scrollTop x vs)).
  assert (Hok : range_ok st).
  { unfold range_ok, st. cbn. repeat split; [exact Hlo | exact Hle |].
    change (dataLength (set_range _ _ _)) with (dataLength vs).
    unfold newEnd. apply Z.le_min_r. }
  destruct Hok as (Hlo' & Hle' & Hhi').
  rewrite (render_in_bounds st w Hw Hlo' Hhi').
  change (perfUtils st) with (perfUtils vs). rewrite Hutils. cbn [fst].
  split; [| by repeat split].
  erewrite animationFrame_mounted by (cbn; reflexivity). cbn.
  rewrite concat_app, Hq. cbn. rewrite app_nil_r.
  apply (length_batch st). by repeat split.
Qed.

(** C4, as the code has it.  On a range inside the list, [render] completes
    and builds one batch with one view per index of [startIndex .. endIndex
    - 1], in order, the view of index [j] showing item [j] at offset
    [j × H].  The batch has [endIndex - startIndex] views: at most [N], and
    [N] exactly when the range is the whole list.  Without
    [PerformanceUtils] the batch is the content of the wrapper when [render]
    returns; with it the wrapper is empty when [render] returns and the
    batch waits for the next animation frame, which mounts it (stated here
    for a frame that has no earlier batch waiting). *)
Theorem render_mounts_range (vs : VirtualScroller) (w : ContentWrapper) :
  contentWrapper vs = Some w → range_ok vs →
  snd (render vs) = Normal
  ∧ Z.of_nat (length (batch vs)) = endIndex vs - startIndex vs
  ∧ (∀ (k : nat) (v : ItemView),
       batch vs !! k = Some v →
       ∃ d, index (data vs) (startIndex vs + Z.of_nat k) = Some d
            ∧ v = viewOf (itemHeight vs) d (startIndex vs + Z.of_nat k)
            ∧ top v = (startIndex vs + Z.of_nat k) * itemHeight vs)
  ∧ Z.of_nat (length (batch vs)) ≤ dataLength vs
  ∧ (Z.of_nat (length (batch vs)) = dataLength vs
     ↔ startIndex vs = 0 ∧ endIndex vs = dataLength vs)
  ∧ (perfUtils vs = false → mounted (fst (render vs)) = batch vs)
  ∧ (perfUtils vs = true →
     mounted (fst (render vs)) = []
     ∧ frameQueue (fst (render vs)) = frameQueue vs ++ [batch vs]
     ∧ (frameQueue vs = [] →
        mounted (animationFrame (fst (render vs))) = batch vs)).
Proof.
  intros Hw Hok.
  pose proof (length_batch vs Hok) as Hlen.
  destruct Hok as (Hlo & Hle & Hhi).
  rewrite (render_in_bounds vs w Hw Hlo Hhi).
  split; [reflexivity |].
  split; [exact Hlen |].
  split.
  { intros k v Hk. unfold batch in Hk.
    apply lookup_sliceViews in Hk as (d & Hd & ->); [| exact Hlo].
    exists d. by repeat split. }
  split; [lia |].
  split; [lia |].
  split.
  - intros ->. reflexivity.
  - intros ->. cbn [fst]. split; [reflexivity | split; [reflexivity |]].
    intros Hq. eapply animationFrame_single; cbn; [reflexivity .. |].
    by rewrite Hq.
Qed.

Lemma render_mounts_range_witness :
  (contentWrapper scrolledToTop = Some (mkWrapper 600000 []) ∧ range_ok scrolledToTop)
  ∧ snd (render scrolledToTop) = Normal
  ∧ Z.of_nat (length (batch scrolledToTop)) = 12.
Proof.
  assert (Hw : contentWrapper scrolledToTop = Some (mkWrapper 600000 []))
    by (vm_compute; reflexivity).
  assert (Hok : range_ok scrolledToTop).
  { unfold range_ok.
    replace (startIndex scrolledToTop) with 0 by (vm_compute; reflexivity).
    replace (endIndex scrolledToTop) with 12 by (vm_compute; reflexivity).
    replace (dataLength scrolledToTop) with 10000 by (vm_compute; reflexivity).
    lia. }
  split; [split; [exact Hw | exact Hok] |].
  destruct (render_mounts_range scrolledToTop _ Hw Hok) as (Hn & Hlen & _).
  split; [exact Hn |].
  rewrite Hlen. vm_compute. reflexivity.
Defined.

(** C4, as the specification has it, fails in its last part: when the
    viewport holds the whole list the range is [0, N) and a render mounts
    [N] views. *)
Lemma render_mounts_whole_list :
  (startIndex tallViewport, endIndex tallViewport) = (0, 10000)
  ∧ Z.of_nat (length (mounted tallViewport)) = 10000
  ∧ dataLength tallViewport = 10000
  ∧ ¬ render_cost_claim tallViewport.
Proof.
  assert (Hw : contentWrapper tallContainer = Some (mkWrapper 600000 []))
    by (vm_compute; reflexivity).
  assert (Hs : newStart 0 tallContainer = 0) by (vm_compute; reflexivity).
  assert (He : newEnd 0 tallContainer = 10000) by (vm_compute; reflexivity).
  assert (Hn : dataLength tallContainer = 10000) by (vm_compute; reflexivity).
  destruct (handleScroll_then_frame tallContainer _ 0 Hw)
    as (Hlen & Hs' & He' & Hn').
  - vm_compute. reflexivity.
  - vm_compute. reflexivity.
  - right. rewrite He. vm_compute. intros Hc. discriminate Hc.
  - rewrite Hs, He. lia.
  - fold tallViewport in Hlen, Hs', He', Hn'.
    rewrite Hs, He in *. rewrite Hn in Hn'.
    split; [by rewrite Hs', He' | split; [lia | split; [exact Hn' |]]].
    unfold render_cost_claim. rewrite Hlen, Hn'. intros [_ Hne]. lia.
Qed.

(** ** The range and the list *)

Lemma range_ok_render (vs : VirtualScroller) :
  range_ok (fst (render vs)) ↔ range_ok vs.
Proof.
  destruct (render_kept vs) as (_ & Hd & _ & _ & _ & Hs & He & _).
  unfold range_ok, dataLength. by rewrite Hs, He, Hd.
Qed.

Lemma range_ok_handleScroll (vs : VirtualScroller) (x : Z) :
  0 < itemHeight vs → -2 ≤ visibleItems vs →
  0 ≤ x < (dataLength vs + 1) * itemHeight vs →
  range_ok (fst (handleScroll x vs)).
Proof.
  intros Hh Hv Hx.
  destruct (handleScroll_post x vs) as (_ & Hs & He & Hd & _).
  unfold range_ok, dataLength. rewrite Hs, He, Hd.
  unfold newEnd, newStart. fold (dataLength vs).
  assert (0 ≤ x / itemHeight vs) by (apply Z.div_pos; lia).
  assert (x / itemHeight vs < dataLength vs + 1)
    by (apply Z.div_lt_upper_bound; lia).
  lia.
Qed.

Lemma range_ok_updateItem (vs : VirtualScroller) (i : Z) (d : Item) :
  range_ok vs → range_ok (fst (updateItem i d vs)).
Proof.
  intros Hok. unfold updateItem.
  destruct ((i >=? 0) && (i <? dataLength vs)); [| exact Hok].
  destruct (index (data vs) i) as [old |]; [| exact Hok].
  assert (Hset : range_ok (set_data (<[Z.to_nat i := spread old d]> (data vs)) vs)).
  { unfold range_ok, dataLength in *. cbn. by rewrite length_insert. }
  cbn zeta.
  destruct ((i >=? _) && (i <? _)); [by apply range_ok_render | exact Hset].
Qed.

Lemma range_ok_addItem (vs : VirtualScroller) (d : Item) :
  range_ok vs → range_ok (fst (addItem d vs)).
Proof.
  intros Hok. unfold addItem.
  set (newItem := spread _ d).
  assert (Hset : range_ok (updateExtent (set_data (data vs ++ [newItem]) vs))).
  { unfold range_ok. rewrite length_after_push. unfold range_ok in Hok. cbn. lia. }
  destruct ((_ >=? _) && (_ <? _)); [by apply range_ok_render | exact Hset].
Qed.

(** Every call but [removeItem] keeps the range inside the list, scroll
    offsets being those of a position the container can have. *)
Lemma range_ok_kept (c : Call) (vs : VirtualScroller) :
  0 < itemHeight vs → -2 ≤ visibleItems vs →
  (∀ i, c ≠ RemoveItem i) →
  (∀ x, c = HandleScroll x → 0 ≤ x < (dataLength vs + 1) * itemHeight vs) →
  range_ok vs → range_ok (fst (call c vs)).
Proof.
  intros Hh Hv Hnot Hscroll Hok.
  destruct c as [x | | i | i d | d | i | h |]; cbn [call fst].
  - apply range_ok_handleScroll; auto.
  - destruct (handleResize_range_kept vs) as [Hs He].
    unfold handleResize in *. destruct (container vs) as [c |]; [| exact Hok].
    apply range_ok_render. exact Hok.
  - unfold scrollToItem. destruct (container vs) as [c |]; [| exact Hok].
    destruct ((i <? 0) || (i >=? dataLength vs)); exact Hok.
  - by apply range_ok_updateItem.
  - by apply range_ok_addItem.
  - by destruct (Hnot i).
  - exact Hok.
  - exact Hok.
Qed.

(** The page after a scroll to the top, one frame, then a resize of the
    container to 1200 pixels and one more frame. *)
Definition resizedTaller : VirtualScroller :=
  run [HandleScroll 0; AnimationFrame; HostResized 1200; HandleResize;
       AnimationFrame] demo.

(** C7.  What the code does after a resize: [handleResize] stores the new
    [visibleItems] (20 for 1200 pixels) and calls [render], but [render]
    reads the stored range, which [handleResize] does not recompute.  The
    mounted views are still those of [0, 12), while the range of the new
    [visibleItems] is [0, 22). *)
Theorem handleResize_renders_stale_range :
  visibleItems resizedTaller = 20
  ∧ (startIndex resizedTaller, endIndex resizedTaller) = (0, 12)
  ∧ Z.min (startIndex resizedTaller + visibleItems resizedTaller + 2)
      (dataLength resizedTaller) = 22
  ∧ Z.of_nat (length (mounted resizedTaller)) = 12.
Proof.
  split; [| split; [| split]]; vm_compute; reflexivity.
Qed.

(** The same resize arriving before the frame of the scroll has run: the
    wrapper was cleared twice while it was empty, and the frame then
    appends both batches, twelve views twice. *)
Lemma two_renders_one_frame :
  Z.of_nat (length (mounted
     (run [HandleScroll 0; HostResized 1200; HandleResize; AnimationFrame] demo)))
  = 24.
Proof. vm_compute. reflexivity. Qed.

(** C8.  What the code does when the list shrinks under the range: with the
    range [9999, 10000) of the last item, [removeItem 0] leaves 9999 items
    and the range as it was, so [endIndex] is past the end of the list. *)
Theorem removeItem_leaves_range_past_end :
  (startIndex scrolledToEnd, endIndex scrolledToEnd, dataLength scrolledToEnd)
  = (9999, 10000, 10000)
  ∧ (startIndex (fst (removeItem 0 scrolledToEnd)),
     endIndex (fst (removeItem 0 scrolledToEnd)),
     dataLength (fst (removeItem 0 scrolledToEnd)))
    = (9999, 10000, 9999)
  ∧ ¬ range_ok (fst (removeItem 0 scrolledToEnd)).
Proof.
  split; [vm_compute; reflexivity | split; [vm_compute; reflexivity |]].
  unfold range_ok.
  replace (endIndex (fst (removeItem 0 scrolledToEnd))) with 10000
    by (vm_compute; reflexivity).
  replace (dataLength (fst (removeItem 0 scrolledToEnd))) with 9999
    by (vm_compute; reflexivity).
  lia.
Qed.

(** A loop that has an index to read at or past the end of the list throws,
    whatever it has built so far. *)
Lemma renderLoop_past_end (h : Z) (items : list Item) (n : nat) :
  ∀ (i : Z) (fragment : list ItemView),
    0 ≤ i → (0 < n)%nat → Z.of_nat (length items) < i + Z.of_nat n →
    renderLoop h items i n fragment = inl TypeError.
Proof.
  induction n as [| n IH]; intros i fragment Hlo Hpos Hhi; [lia |].
  cbn [renderLoop].
  destruct (index items i) as [d |] eqn:Hd; [| reflexivity].
  rewrite createItem_Some.
  assert (Hin : i < Z.of_nat (length items)).
  { destruct (Z.lt_ge_cases i (Z.of_nat (length items))) as [Hlt | Hge]; [exact Hlt |].
    rewrite index_out_of_range in Hd by (right; exact Hge). discriminate Hd. }
  apply IH; lia.
Qed.

Lemma render_past_end (vs : VirtualScroller) (w : ContentWrapper) :
  contentWrapper vs = Some w →
  0 ≤ startIndex vs < endIndex vs → dataLength vs < endIndex vs →
  snd (render vs) = Throw TypeError.
Proof.
  intros Hw Hrange Hpast. unfold render, dataLength in *. cbn. rewrite Hw. cbn.
  rewrite renderLoop_past_end by lia. reflexivity.
Qed.

(** With the list scrolled to its end, removing any item throws. *)
Lemma removeItem_at_end_throws (vs : VirtualScroller) (w : ContentWrapper) (i : Z) :
  contentWrapper vs = Some w →
  0 ≤ i < dataLength vs →
  0 ≤ startIndex vs < endIndex vs → endIndex vs = dataLength vs →
  snd (removeItem i vs) = Throw TypeError.
Proof.
  intros Hw Hi Hrange Hend. unfold removeItem.
  destruct (Z.geb_spec i 0) as [_ | Hneg]; [| lia].
  destruct (Z.ltb_spec i (dataLength vs)) as [_ | Hge]; [| lia]. cbn [andb].
  apply (render_past_end _ (set_wrapperHeight
           (dataLength (set_data (delete (Z.to_nat i) (data vs)) vs) * itemHeight vs) w)).
  - unfold updateExtent. cbn. by rewrite Hw.
  - exact Hrange.
  - rewrite length_after_splice by exact Hi.
    change (endIndex (updateExtent _)) with (endIndex vs). lia.
Qed.

(** C9.  What the code does on the same input: the [render] that
    [removeItem] ends with reads [data[9999]], which is no longer there,
    and [createItem] throws a [TypeError] that leaves [removeItem].  The
    range stays as it is, so the next [render] (here from [handleResize])
    throws again. *)
Theorem removeItem_render_reads_past_end :
  snd (removeItem 0 scrolledToEnd) = Throw TypeError
  ∧ index (data (fst (removeItem 0 scrolledToEnd))) 9999 = None
  ∧ snd (handleResize (fst (removeItem 0 scrolledToEnd))) = Throw TypeError.
Proof.
  split; [| split]; vm_compute; reflexivity.
Qed.

(** * Further properties of the scroller *)

(** ** Operations that cannot fail *)

(** The object as every call expects it: a positive item height, a
    viewport capacity and container height that are not negative, and a
    range inside the list. *)
Definition well_formed (vs : VirtualScroller) : Prop :=
  0 < itemHeight vs
  ∧ 0 ≤ visibleItems vs
  ∧ range_ok vs
  ∧ (∀ c, container vs = Some c → 0 ≤ clientHeight c).

(** The calls and host events that keep it so: a scroll offset the host can
    report (up to one item past the extent), a container height that is not
    negative, and a removal only while the range ends before the last
    item. *)
Definition admissible (c : Call) (vs : VirtualScroller) : Prop :=
  match c with
  | HandleScroll x => 0 ≤ x < (dataLength vs + 1) * itemHeight vs
  | RemoveItem i => 0 ≤ i < dataLength vs → endIndex vs < dataLength vs
  | HostResized h => 0 ≤ h
  | _ => True
  end.

Lemma well_formed_render (vs : VirtualScroller) :
  well_formed vs → well_formed (fst (render vs)) ∧ snd (render vs) = Normal.
Proof.
  intros (Hh & Hv & Hok & Hc).
  destruct (render_kept vs) as (Hc' & _ & Hh' & Hv' & _).
  split.
  - unfold well_formed. rewrite Hc', Hh', Hv'.
    split; [exact Hh | split; [exact Hv | split; [| exact Hc]]].
    by apply range_ok_render.
  - destruct Hok as (Hlo & _ & Hhi). by apply render_normal.
Qed.

Lemma ceil_div_nonneg (a b : Z) : 0 ≤ a → 0 < b → 0 ≤ ceil_div a b.
Proof.
  intros Ha Hb. pose proof (ceil_div_bounds a b Hb) as Hbounds. nia.
Qed.

Ltac split_well_formed :=
  unfold well_formed; split; [| split; [| split]]; cbn.

(** One admissible call or host event completes normally and leaves a
    well-formed object. *)
Lemma admissible_call_step (c : Call) (vs : VirtualScroller) :
  well_formed vs → admissible c vs →
  well_formed (fst (call c vs)) ∧ snd (call c vs) = Normal.
Proof.
  intros Hwf Hadm.
  pose proof Hwf as (Hh & Hv & Hok & Hcont).
  destruct c as [x | | i | i d | d | i | h |]; cbn [call admissible] in *.
  - (* handleScroll *)
    destruct (handleScroll_cases x vs) as [[Hs He] | Hne].
    + rewrite handleScroll_unchanged by assumption. cbn [fst snd].
      split; [| reflexivity]. split_well_formed; assumption.
    + rewrite handleScroll_changed by assumption.
      apply well_formed_render. split_well_formed; try assumption.
      assert (0 ≤ x / itemHeight vs) by (apply Z.div_pos; lia).
      assert (x / itemHeight vs < dataLength vs + 1)
        by (apply Z.div_lt_upper_bound; lia).
      unfold range_ok, newEnd, newStart. cbn.
      change (dataLength (set_range _ _ _)) with (dataLength vs). lia.
  - (* handleResize *)
    unfold handleResize. destruct (container vs) as [c |] eqn:Hc;
      [| by split].
    apply well_formed_render. split_well_formed; try assumption.
    + apply ceil_div_nonneg; [by apply Hcont | exact Hh].
    + intros c' Hc'. apply Hcont. congruence.
  - (* scrollToItem *)
    unfold scrollToItem. destruct (container vs) as [c |] eqn:Hc; [| by split].
    destruct ((i <? 0) || (i >=? dataLength vs)); [by split |].
    cbn [fst snd]. split; [| reflexivity].
    split_well_formed; try assumption.
    intros c' Hc'. injection Hc' as <-. cbn. by apply Hcont.
  - (* updateItem *)
    unfold updateItem.
    destruct ((i >=? 0) && (i <? dataLength vs)); [| by split].
    destruct (index (data vs) i) as [old |]; [| by split].
    assert (Hset : well_formed
                     (set_data (<[Z.to_nat i := spread old d]> (data vs)) vs)).
    { split_well_formed; try assumption.
      unfold range_ok, dataLength in *. cbn. by rewrite length_insert. }
    cbn zeta.
    destruct ((i >=? _) && (i <? _)); [by apply well_formed_render | by split].
  - (* addItem *)
    unfold addItem. set (newItem := spread _ d).
    assert (Hset : well_formed (updateExtent (set_data (data vs ++ [newItem]) vs))).
    { split_well_formed; try assumption.
      unfold range_ok in *. rewrite length_after_push. cbn. lia. }
    destruct ((_ >=? _) && (_ <? _)); [by apply well_formed_render | by split].
  - (* removeItem *)
    unfold removeItem.
    destruct (Z.geb_spec i 0) as [Hpos | Hneg]; [| by split].
    destruct (Z.ltb_spec i (dataLength vs)) as [Hlt | Hge]; [| by split].
    cbn [andb]. apply well_formed_render.
    split_well_formed; try assumption.
    unfold range_ok in *. rewrite length_after_splice by lia. cbn. lia.
  - (* the host resizes the container *)
    cbn [fst snd]. split; [| reflexivity].
    split_well_formed; try assumption.
    unfold hostResized. intros c' Hc'.
    destruct (container vs) as [c |]; [| discriminate Hc'].
    injection Hc' as <-. exact Hadm.
  - (* an animation frame *)
    cbn [fst snd]. split; [| reflexivity].
    split_well_formed; assumption.
Qed.

(** A sequence of calls, each admissible when its turn comes. *)
Fixpoint admissible_run (cs : list Call) (vs : VirtualScroller) : Prop :=
  match cs with
  | [] => True
  | c :: cs' => admissible c vs ∧ admissible_run cs' (fst (call c vs))
  end.

(** How each call of a sequence completed. *)
Fixpoint completions (cs : list Call) (vs : VirtualScroller) : list Completion :=
  match cs with
  | [] => []
  | c :: cs' => snd (call c vs) :: completions cs' (fst (call c vs))
  end.

(** X1.  From a well-formed object, a sequence of admissible calls and host
    events never throws: every call completes normally, and the object at
    the end is well formed again (in particular its range is inside the
    list). *)
Theorem admissible_run_is_safe (cs : list Call) :
  ∀ vs : VirtualScroller,
    well_formed vs → admissible_run cs vs →
    well_formed (run cs vs) ∧ Forall (λ k, k = Normal) (completions cs vs).
Proof.
  induction cs as [| c cs IH]; intros vs Hwf Hadm.
  - split; [exact Hwf | constructor].
  - destruct Hadm as [Hc Hrest].
    destruct (admissible_call_step c vs Hwf Hc) as [Hwf' Hnormal].
    destruct (IH _ Hwf' Hrest) as [Hend Hall].
    split; [exact Hend |].
    cbn [completions]. constructor; assumption.
Qed.

Lemma well_formed_demo : well_formed demo.
Proof.
  unfold well_formed, range_ok.
  replace (itemHeight demo) with 60 by (vm_compute; reflexivity).
  replace (visibleItems demo) with 10 by (vm_compute; reflexivity).
  replace (startIndex demo) with 0 by (vm_compute; reflexivity).
  replace (endIndex demo) with 0 by (vm_compute; reflexivity).
  replace (dataLength demo) with 10000 by (vm_compute; reflexivity).
  replace (container demo) with (Some (mkContainer 600 (Some 600) []))
    by (vm_compute; reflexivity).
  split; [lia | split; [lia | split; [lia |]]].
  intros c Hc. injection Hc as <-. cbn. lia.
Defined.

Definition sampleRun : list Call :=
  [HandleScroll 120; HostResized 900; HandleResize;
   UpdateItem 3 (mkItem None (Some "renamed"%string) None None None);
   AddItem (mkItem None (Some "new"%string) (Some "added"%string) None None);
   RemoveItem 5; ScrollToItem 40; AnimationFrame].

Lemma admissible_run_is_safe_witness :
  (well_formed demo ∧ admissible_run sampleRun demo)
  ∧ Forall (λ k, k = Normal) (completions sampleRun demo).
Proof.
  assert (Hadm : admissible_run sampleRun demo).
  { cbn [admissible_run sampleRun admissible].
    split; [vm_compute; split; [intros Hc; discriminate Hc | reflexivity] |].
    split; [lia |].
    repeat (split; [exact I |]).
    split; [| split; [exact I | split; [exact I | exact I]]].
    intros _. vm_compute. reflexivity. }
  split; [split; [exact well_formed_demo | exact Hadm] |].
  exact (proj2 (admissible_run_is_safe sampleRun demo well_formed_demo Hadm)).
Defined.

(** ** The range as a function of the offset *)

(** X2.  For a positive item height the range only moves forward with the
    offset: a larger offset gives a [startIndex] and an [endIndex] that are
    not smaller. *)
Theorem handleScroll_monotone (vs : VirtualScroller) (x1 x2 : Z) :
  0 < itemHeight vs → x1 ≤ x2 →
  startIndex (fst (handleScroll x1 vs)) ≤ startIndex (fst (handleScroll x2 vs))
  ∧ endIndex (fst (handleScroll x1 vs)) ≤ endIndex (fst (handleScroll x2 vs)).
Proof.
  intros Hh Hle.
  destruct (handleScroll_post x1 vs) as (_ & Hs1 & He1 & _).
  destruct (handleScroll_post x2 vs) as (_ & Hs2 & He2 & _).
  rewrite Hs1, Hs2, He1, He2. unfold newEnd, newStart.
  assert (x1 / itemHeight vs ≤ x2 / itemHeight vs)
    by (apply Z.div_le_mono; lia).
  lia.
Qed.

Lemma handleScroll_monotone_witness :
  (0 < itemHeight demo ∧ 120 ≤ 4000)
  ∧ startIndex (fst (handleScroll 120 demo)) ≤ startIndex (fst (handleScroll 4000 demo)).
Proof.
  assert (Hh : 0 < itemHeight demo) by (vm_compute; reflexivity).
  assert (Hle : 120 ≤ 4000) by lia.
  split; [split; [exact Hh | exact Hle] |].
  exact (proj1 (handleScroll_monotone demo 120 4000 Hh Hle)).
Defined.

Lemma renderLoop_negative (h : Z) (items : list Item) (n : nat) (i : Z)
    (fragment : list ItemView) :
  i < 0 → (0 < n)%nat → renderLoop h items i n fragment = inl TypeError.
Proof.
  intros Hneg Hpos. destruct n as [| n]; [lia |].
  cbn [renderLoop]. rewrite index_out_of_range by (left; exact Hneg).
  reflexivity.
Qed.

(** X3.  A negative offset (an overscroll past the top) makes the range
    start below zero: with a non-empty list, [handleScroll] stores the
    offset and the range, and the [render] it calls throws a [TypeError] on
    [data[-1]]. *)
Theorem handleScroll_negative_throws (vs : VirtualScroller) (w : ContentWrapper)
    (x : Z) :
  contentWrapper vs = Some w → 0 < itemHeight vs → 0 ≤ visibleItems vs →
  0 ≤ startIndex vs → 0 < dataLength vs → x < 0 →
  snd (handleScroll x vs) = Throw TypeError
  ∧ scrollTop (fst (handleScroll x vs)) = x
  ∧ startIndex (fst (handleScroll x vs)) < 0.
Proof.
  intros Hw Hh Hv Hs Hn Hx.
  assert (Hneg : x / itemHeight vs < 0) by (apply Z.div_lt_upper_bound; lia).
  destruct (handleScroll_post x vs) as (Ht & Hs' & _).
  split; [| split; [exact Ht | rewrite Hs'; exact Hneg]].
  rewrite handleScroll_changed by (left; unfold newStart; lia).
  unfold render. cbn. rewrite Hw. cbn.
  rewrite renderLoop_negative; [reflexivity | exact Hneg |].
  unfold newEnd, newStart. lia.
Qed.

Lemma handleScroll_negative_throws_witness :
  snd (handleScroll (-30) scrolledToTop) = Throw TypeError.
Proof.
  refine (proj1 (handleScroll_negative_throws scrolledToTop
                   (mkWrapper 600000 []) (-30) _ _ _ _ _ _)).
  - vm_compute. reflexivity.
  - vm_compute. reflexivity.
  - vm_compute. intros Hc. discriminate Hc.
  - vm_compute. intros Hc. discriminate Hc.
  - vm_compute. reflexivity.
  - lia.
Defined.

(** X4.  [scrollToItem i] asks the container for the offset [i × H], and
    the scroll event the container answers with brings the range to start
    at [i]: [handleScroll (i × H)] completes with [startIndex = i] and
    [endIndex = min (i + visibleItems + 2, N)]. *)
Theorem scrollToItem_then_scroll (vs : VirtualScroller) (c : Container) (i : Z) :
  container vs = Some c → 0 < itemHeight vs → 0 ≤ i < dataLength vs →
  (scrollToCalls <$> container (fst (scrollToItem i vs)))
  = Some (i * itemHeight vs :: scrollToCalls c)
  ∧ snd (handleScroll (i * itemHeight vs) (fst (scrollToItem i vs))) = Normal
  ∧ startIndex (fst (handleScroll (i * itemHeight vs) (fst (scrollToItem i vs)))) = i
  ∧ endIndex (fst (handleScroll (i * itemHeight vs) (fst (scrollToItem i vs))))
    = Z.min (i + visibleItems vs + 2) (dataLength vs).
Proof.
  intros Hc Hh Hi.
  assert (Hcall : scrollToItem i vs
                  = (set_container
                       (Some (mkContainer (clientHeight c) (styleHeight c)
                                (i * itemHeight vs :: scrollToCalls c))) vs,
                     Normal)).
  { unfold scrollToItem. rewrite Hc.
    destruct (Z.ltb_spec i 0) as [Hneg | _]; [lia |].
    destruct (Z.geb_spec i (dataLength vs)) as [Hge | _]; [lia | reflexivity]. }
  rewrite Hcall. cbn [fst]. split; [reflexivity |].
  set (vs1 := set_container _ vs).
  destruct (handleScroll_post (i * itemHeight vs) vs1) as (_ & Hs & He & _).
  assert (Hq : i * itemHeight vs / itemHeight vs = i)
    by (apply Z.div_mul; lia).
  unfold newEnd, newStart in *. cbn in Hs, He. rewrite Hq in *.
  split; [| split; [exact Hs | exact He]].
  destruct (handleScroll_cases (i * itemHeight vs) vs1) as [[Hs' He'] | Hne].
  - by rewrite handleScroll_unchanged.
  - rewrite handleScroll_changed by assumption.
    apply render_normal; cbn; unfold newEnd, newStart; cbn; rewrite Hq; [lia |].
    apply Z.le_min_r.
Qed.

Lemma scrollToItem_then_scroll_witness :
  startIndex (fst (handleScroll (9999 * itemHeight demo)
                     (fst (scrollToItem 9999 demo)))) = 9999
  ∧ endIndex (fst (handleScroll (9999 * itemHeight demo)
                     (fst (scrollToItem 9999 demo))))
    = Z.min (9999 + visibleItems demo + 2) (dataLength demo).
Proof.
  assert (Hc : container demo = Some (mkContainer 600 (Some 600) []))
    by (vm_compute; reflexivity).
  assert (Hh : 0 < itemHeight demo) by (vm_compute; reflexivity).
  assert (Hi : 0 ≤ 9999 < dataLength demo)
    by (vm_compute; split; [intros Hx; discriminate Hx | reflexivity]).
  destruct (scrollToItem_then_scroll demo _ 9999 Hc Hh Hi) as (_ & _ & Hs & He).
  split; [exact Hs | exact He].
Defined.

(** ** The page right after construction *)


(** ** [getScrollStats] *)

Lemma percentage_bounds (x d : Z) :
  0 ≤ x < d →
  (0 <= inject_Z x / inject_Z d * 100)%Q ∧ (inject_Z x / inject_Z d * 100 < 100)%Q.
Proof.
  intros [Hlo Hhi].
  destruct d as [| p | p]; [lia | | lia].
  unfold Qle, Qlt, Qdiv, Qmult, Qinv, inject_Z. cbn.
  rewrite ?Pos.mul_1_r, ?Pos.mul_1_l. lia.
Qed.

(** X6.  After a scroll inside the extent, [getScrollStats] reports the
    offset, a finite [scrollPercentage] in [0, 100), and as [visibleItems]
    the size of the range: between 0 and [visibleItems + 2], and never more
    than [totalItems].  On an empty list the percentage is not a finite
    number. *)
Theorem scroll_stats_bounds (vs : VirtualScroller) (x : Z) :
  (0 ≤ x < dataLength vs * itemHeight vs → 0 ≤ visibleItems vs →
   Stats.scrollTop (getScrollStats (fst (handleScroll x vs))) = x
   ∧ Stats.totalItems (getScrollStats (fst (handleScroll x vs))) = dataLength vs
   ∧ (∃ q, Stats.scrollPercentage (getScrollStats (fst (handleScroll x vs)))
           = Finite q ∧ (0 <= q)%Q ∧ (q < 100)%Q)
   ∧ 0 < Stats.visibleItems (getScrollStats (fst (handleScroll x vs)))
   ∧ Stats.visibleItems (getScrollStats (fst (handleScroll x vs)))
     ≤ visibleItems vs + 2
   ∧ Stats.visibleItems (getScrollStats (fst (handleScroll x vs)))
     ≤ dataLength vs)
  ∧ (dataLength vs = 0 →
     ∀ q, Stats.scrollPercentage (getScrollStats vs) ≠ Finite q).
Proof.
  split.
  - intros Hx Hv.
    assert (Hh : 0 < itemHeight vs) by (unfold dataLength in Hx; nia).
    destruct (handleScroll_post x vs) as (Ht & Hs & He & Hd & Hh' & _).
    unfold getScrollStats. cbn. unfold dataLength at 1 2 3.
    rewrite Ht, Hs, He, Hd, Hh'. fold (dataLength vs).
    split; [reflexivity | split; [reflexivity |]].
    assert (Hq : 0 ≤ x / itemHeight vs) by (apply Z.div_pos; lia).
    assert (Hq' : x / itemHeight vs < dataLength vs)
      by (apply Z.div_lt_upper_bound; lia).
    split; [| unfold newEnd, newStart; lia].
    unfold js_div.
    destruct (Z.eqb_spec (dataLength vs * itemHeight vs) 0) as [Hz | _]; [lia |].
    eexists. split; [reflexivity |]. by apply percentage_bounds.
  - intros Hn q. unfold getScrollStats, js_div. cbn. rewrite Hn. cbn.
    destruct (scrollTop vs =? 0); [discriminate |].
    destruct (0 <? scrollTop vs); discriminate.
Qed.

Lemma scroll_stats_bounds_witness :
  (0 ≤ 120 < dataLength demo * itemHeight demo ∧ 0 ≤ visibleItems demo)
  ∧ Stats.visibleItems (getScrollStats (fst (handleScroll 120 demo)))
    ≤ visibleItems demo + 2.
Proof.
  assert (Hx : 0 ≤ 120 < dataLength demo * itemHeight demo)
    by (vm_compute; split; [intros Hc; discriminate Hc | reflexivity]).
  assert (Hv : 0 ≤ visibleItems demo) by (vm_compute; intros Hc; discriminate Hc).
  split; [split; [exact Hx | exact Hv] |].
  destruct (proj1 (scroll_stats_bounds demo 120) Hx Hv) as (_ & _ & _ & _ & Hle & _).
  exact Hle.
Defined.

(** ** The list after a change *)

Lemma index_insert {A : Type} (arr : list A) (i j : Z) (v : A) :
  0 ≤ i < Z.of_nat (length arr) →
  index (<[Z.to_nat i := v]> arr) j = if j =? i then Some v else index arr j.
Proof.
  intros Hi. unfold index.
  destruct (Z.ltb_spec j 0) as [Hneg | Hpos].
  - destruct (Z.eqb_spec j i) as [-> | _]; [lia | reflexivity].
  - destruct (Z.eqb_spec j i) as [-> | Hne].
    + apply list_lookup_insert_eq. lia.
    + apply list_lookup_insert_ne. lia.
Qed.

(** X7.  [updateItem i newData] replaces item [i] by the old item
    overwritten with the properties [newData] has, and touches no other
    item and not the length; for an index outside the list it does nothing
    at all. *)
Theorem updateItem_replaces_one (vs : VirtualScroller) (i : Z) (newData : Item) :
  (∀ old, index (data vs) i = Some old →
     index (data (fst (updateItem i newData vs))) i = Some (spread old newData)
     ∧ (∀ j, j ≠ i →
          index (data (fst (updateItem i newData vs))) j = index (data vs) j)
     ∧ dataLength (fst (updateItem i newData vs)) = dataLength vs
     ∧ title (spread old newData) = from_option Some (title old) (title newData)
     ∧ id (spread old newData) = from_option Some (id old) (id newData))
  ∧ (i < 0 ∨ dataLength vs ≤ i → updateItem i newData vs = (vs, Normal)).
Proof.
  split.
  - intros old Hold.
    assert (Hi : 0 ≤ i < dataLength vs).
    { unfold dataLength.
      destruct (Z.lt_ge_cases i 0) as [Hneg | Hpos];
        [rewrite index_out_of_range in Hold by (left; exact Hneg); discriminate |].
      destruct (Z.lt_ge_cases i (Z.of_nat (length (data vs)))) as [Hlt | Hge];
        [lia |].
      rewrite index_out_of_range in Hold by (right; exact Hge). discriminate. }
    assert (Hdata : data (fst (updateItem i newData vs))
                    = <[Z.to_nat i := spread old newData]> (data vs)).
    { unfold updateItem.
      destruct (Z.geb_spec i 0) as [_ | Hneg]; [| lia].
      destruct (Z.ltb_spec i (dataLength vs)) as [_ | Hge]; [| lia]. cbn [andb].
      rewrite Hold. cbn zeta.
      destruct ((i >=? _) && (i <? _)); [| reflexivity].
      destruct (render_kept
                  (set_data (<[Z.to_nat i := spread old newData]> (data vs)) vs))
        as (_ & Hd & _).
      exact Hd. }
    unfold dataLength in *. rewrite Hdata.
    split; [| split; [| split; [| split; reflexivity]]].
    + rewrite index_insert by exact Hi. by rewrite Z.eqb_refl.
    + intros j Hne. rewrite index_insert by exact Hi.
      destruct (Z.eqb_spec j i) as [-> | _]; [by destruct Hne | reflexivity].
    + by rewrite length_insert.
  - intros Hout. unfold updateItem.
    destruct (Z.geb_spec i 0) as [Hpos | Hneg]; [| reflexivity].
    destruct (Z.ltb_spec i (dataLength vs)) as [Hlt | Hge]; [lia | reflexivity].
Qed.

Lemma updateItem_replaces_one_witness :
  title <$> index (data (fst (updateItem 3 (mkItem None (Some "renamed"%string)
                                               None None None) scrolledToTop))) 3
  = Some (Some "renamed"%string).
Proof.
  assert (Hold : index (data scrolledToTop) 3
                 = Some (mkItem (Some 4) (Some "Item 4"%string)
                           (Some "This is item number 4 in the virtual list"%string)
                           (Some "2024-01-01T00:00:00.000Z"%string)
                           (Some "active"%string)))
    by (vm_compute; reflexivity).
  destruct (proj1 (updateItem_replaces_one scrolledToTop 3
                     (mkItem None (Some "renamed"%string) None None None)) _ Hold)
    as (Hnew & _).
  rewrite Hnew. reflexivity.
Defined.

Lemma addItem_data (vs : VirtualScroller) (d : Item) :
  data (fst (addItem d vs))
  = data vs ++ [spread (mkItem (Some (dataLength vs + 1)) None None None None) d].
Proof.
  unfold addItem. set (newItem := spread _ d).
  destruct ((_ >=? _) && (_ <? _)); [| reflexivity].
  destruct (render_kept (updateExtent (set_data (data vs ++ [newItem]) vs)))
    as (_ & Hd & _).
  exact Hd.
Qed.

(** X8.  [addItem] puts the new item last and keeps every item before it:
    the new item has the properties given, and the id [N + 1] unless an id
    is given. *)
Theorem addItem_appends (vs : VirtualScroller) (d : Item) :
  index (data (fst (addItem d vs))) (dataLength vs)
  = Some (spread (mkItem (Some (dataLength vs + 1)) None None None None) d)
  ∧ (∀ j, j < dataLength vs →
       index (data (fst (addItem d vs))) j = index (data vs) j)
  ∧ dataLength (fst (addItem d vs)) = dataLength vs + 1
  ∧ (id d = None →
     id <$> index (data (fst (addItem d vs))) (dataLength vs)
     = Some (Some (dataLength vs + 1)))
  ∧ title <$> index (data (fst (addItem d vs))) (dataLength vs) = Some (title d).
Proof.
  pose proof (addItem_data vs d) as Hdata.
  assert (Hlast : index (data (fst (addItem d vs))) (dataLength vs)
                  = Some (spread (mkItem (Some (dataLength vs + 1)) None None None None) d)).
  { rewrite Hdata. unfold index, dataLength.
    destruct (Z.ltb_spec (Z.of_nat (length (data vs))) 0) as [Hneg | _]; [lia |].
    rewrite Nat2Z.id. by rewrite lookup_app_r, Nat.sub_diag. }
  split; [exact Hlast | split; [| split; [| split]]].
  - intros j Hj. rewrite Hdata. unfold index, dataLength in *.
    destruct (Z.ltb_spec j 0) as [Hneg | Hpos]; [reflexivity |].
    apply lookup_app_l. lia.
  - unfold dataLength. rewrite Hdata, length_app. cbn. lia.
  - intros Hid. rewrite Hlast. cbn. by rewrite Hid.
  - rewrite Hlast. cbn. by destruct (title d).
Qed.

Lemma removeItem_data (vs : VirtualScroller) (i : Z) :
  0 ≤ i < dataLength vs →
  data (fst (removeItem i vs)) = delete (Z.to_nat i) (data vs).
Proof.
  intros Hi. unfold removeItem.
  destruct (Z.geb_spec i 0) as [_ | Hneg]; [| lia].
  destruct (Z.ltb_spec i (dataLength vs)) as [_ | Hge]; [| lia]. cbn [andb].
  destruct (render_kept (updateExtent (set_data (delete (Z.to_nat i) (data vs)) vs)))
    as (_ & Hd & _).
  exact Hd.
Qed.

(** X9.  [removeItem i] of a valid index takes out item [i] and nothing
    else: the items before [i] stay where they are and each later item
    moves one index down (this holds also when the [render] at the end
    throws).  For an index outside the list it does nothing at all. *)
Theorem removeItem_shifts (vs : VirtualScroller) (i : Z) :
  (0 ≤ i < dataLength vs →
   (∀ j, j < i → index (data (fst (removeItem i vs))) j = index (data vs) j)
   ∧ (∀ j, i ≤ j → index (data (fst (removeItem i vs))) j = index (data vs) (j + 1))
   ∧ dataLength (fst (removeItem i vs)) = dataLength vs - 1)
  ∧ (i < 0 ∨ dataLength vs ≤ i → removeItem i vs = (vs, Normal)).
Proof.
  split.
  - intros Hi. pose proof (removeItem_data vs i Hi) as Hdata.
    split; [| split].
    + intros j Hj. rewrite Hdata. unfold index.
      destruct (Z.ltb_spec j 0) as [Hneg | Hpos]; [reflexivity |].
      apply list_lookup_delete_lt. lia.
    + intros j Hj. rewrite Hdata. unfold index.
      destruct (Z.ltb_spec j 0) as [Hneg | Hpos]; [lia |].
      destruct (Z.ltb_spec (j + 1) 0) as [Hneg' | Hpos']; [lia |].
      rewrite list_lookup_delete_ge by lia. f_equal. lia.
    + unfold dataLength in *. rewrite Hdata.
      rewrite length_delete; [lia |]. apply lookup_lt_is_Some_2. lia.
  - intros Hout. unfold removeItem.
    destruct (Z.geb_spec i 0) as [Hpos | Hneg]; [| reflexivity].
    destruct (Z.ltb_spec i (dataLength vs)) as [Hlt | Hge]; [lia | reflexivity].
Qed.

Lemma removeItem_shifts_witness :
  0 ≤ 5 < dataLength scrolledToTop
  ∧ index (data (fst (removeItem 5 scrolledToTop))) 5 = index (data scrolledToTop) 6.
Proof.
  assert (Hi : 0 ≤ 5 < dataLength scrolledToTop)
    by (vm_compute; split; [intros Hc; discriminate Hc | reflexivity]).
  split; [exact Hi |].
  destruct (proj1 (removeItem_shifts scrolledToTop 5) Hi) as (_ & Hshift & _).
  apply Hshift. lia.
Defined.

(** X10.  With a non-empty range inside the list, [removeItem] of a valid
    index throws exactly when the range ends at the end of the list;
    otherwise it completes normally. *)
Theorem removeItem_throws_iff (vs : VirtualScroller) (w : ContentWrapper) (i : Z) :
  contentWrapper vs = Some w →
  0 ≤ i < dataLength vs →
  0 ≤ startIndex vs < endIndex vs → endIndex vs ≤ dataLength vs →
  (snd (removeItem i vs) = Throw TypeError ↔ endIndex vs = dataLength vs)
  ∧ (snd (removeItem i vs) = Normal ↔ endIndex vs < dataLength vs).
Proof.
  intros Hw Hi Hrange Hend.
  assert (Hcall : removeItem i vs
                  = render (updateExtent
                              (set_data (delete (Z.to_nat i) (data vs)) vs))).
  { unfold removeItem.
    destruct (Z.geb_spec i 0) as [_ | Hneg]; [| lia].
    destruct (Z.ltb_spec i (dataLength vs)) as [_ | Hge]; [| lia]. reflexivity. }
  rewrite Hcall.
  set (vs' := updateExtent _).
  assert (Hlen : dataLength vs' = dataLength vs - 1)
    by (by apply length_after_splice).
  assert (Hw' : contentWrapper vs'
                = Some (set_wrapperHeight
                          (dataLength (set_data (delete (Z.to_nat i) (data vs)) vs)
                           * itemHeight vs) w)).
  { unfold vs', updateExtent. cbn. by rewrite Hw. }
  destruct (Z.eq_dec (endIndex vs) (dataLength vs)) as [Heq | Hne].
  - assert (Hthrow : snd (render vs') = Throw TypeError).
    { eapply render_past_end; [exact Hw' | exact Hrange |].
      rewrite Hlen. change (endIndex vs') with (endIndex vs). lia. }
    rewrite Hthrow. split; split; intros H; try lia; try discriminate H; reflexivity.
  - assert (Hnormal : snd (render vs') = Normal).
    { apply render_normal; [apply Hrange |].
      rewrite Hlen. change (endIndex vs') with (endIndex vs). lia. }
    rewrite Hnormal. split; split; intros H; try lia; try discriminate H; reflexivity.
Qed.

Lemma removeItem_throws_iff_witness :
  snd (removeItem 0 scrolledToEnd) = Throw TypeError
  ∧ snd (removeItem 5000 scrolledToTop) = Normal.
Proof.
  split.
  - refine (proj2 (proj1 (removeItem_throws_iff scrolledToEnd
                            (mkWrapper 600000 []) 0 _ _ _ _)) _);
      vm_compute; try reflexivity;
      try (split; [intros Hc; discriminate Hc | reflexivity]);
      intros Hc; discriminate Hc.
  - refine (proj2 (proj2 (removeItem_throws_iff scrolledToTop
                            (mkWrapper 600000 []) 5000 _ _ _ _)) _);
      vm_compute; try reflexivity;
      try (split; [intros Hc; discriminate Hc | reflexivity]);
      intros Hc; discriminate Hc.
Defined.

(** ** Two renders and one frame *)

(** X11.  With [PerformanceUtils] loaded, [render] clears the wrapper at
    once but leaves the append to the next animation frame.  Two renders
    before one frame therefore mount the batch twice: every view of the
    range is in the wrapper two times. *)
Theorem render_twice_mounts_twice (vs : VirtualScroller) (w : ContentWrapper) :
  contentWrapper vs = Some w → perfUtils vs = true →
  0 ≤ startIndex vs → endIndex vs ≤ dataLength vs →
  concat (frameQueue vs) = [] →
  mounted (animationFrame (fst (render (fst (render vs))))) = batch vs ++ batch vs.
Proof.
  intros Hw Hutils Hlo Hhi Hq.
  rewrite (render_in_bounds vs w Hw Hlo Hhi). rewrite Hutils. cbn [fst].
  set (vs1 := set_frameQueue _ _).
  rewrite (render_in_bounds vs1 (set_children [] w)); [| reflexivity | exact Hlo | exact Hhi].
  change (perfUtils vs1) with (perfUtils vs). rewrite Hutils. cbn [fst].
  erewrite animationFrame_mounted by (cbn; reflexivity). cbn.
  rewrite !concat_app, Hq. cbn. by rewrite !app_nil_r.
Qed.

Lemma render_twice_mounts_twice_witness :
  Z.of_nat (length (mounted (animationFrame
     (fst (render (fst (render (animationFrame scrolledToTop)))))))) = 24.
Proof.
  assert (Hw : ∃ w, contentWrapper (animationFrame scrolledToTop) = Some w)
    by (vm_compute; eexists; reflexivity).
  destruct Hw as [w Hw].
  rewrite (render_twice_mounts_twice (animationFrame scrolledToTop) w Hw).
  - rewrite length_app.
    replace (length (batch (animationFrame scrolledToTop))) with 12%nat
      by (vm_compute; reflexivity).
    reflexivity.
  - vm_compute. reflexivity.
  - vm_compute. intros Hc. discriminate Hc.
  - vm_compute. intros Hc. discriminate Hc.
  - vm_compute. reflexivity.
Defined.

Lemma addItem_appends_witness :
  id (mkItem None (Some "new"%string) None None None) = None
  ∧ id <$> index (data (fst (addItem (mkItem None (Some "new"%string) None None None)
                               scrolledToTop))) (dataLength scrolledToTop)
    = Some (Some (dataLength scrolledToTop + 1)).
Proof.
  split; [reflexivity |].
  destruct (addItem_appends scrolledToTop (mkItem None (Some "new"%string) None None None))
    as (_ & _ & _ & Hid & _).
  exact (Hid eq_refl).
Defined.

(** * [searchItems] *)

(** The three string methods the search uses are the host's: [trim],
    [toLowerCase] and [includes] (receiver first). *)
Section Search.

Variables (trim toLowerCase : string → string).
Variable includes : string → string → bool.

(** The callback of [filter].  [item.title.toLowerCase ()] throws when the
    item has no title; the description is only read when the title does not
    match. *)
Definition matchesQuery (query : string) (item : Item) : JsError + bool :=
  match title item with
  | None => inl TypeError
  | Some t =>
      if includes (toLowerCase t) (toLowerCase query) then inr true
      else
        match description item with
        | None => inl TypeError
        | Some d => inr (includes (toLowerCase d) (toLowerCase query))
        end
  end.

(** [this.data.filter (...)]: the items are visited in order and the first
    exception ends the call. *)
Fixpoint filterItems (query : string) (items : list Item) : JsError + list Item :=
  match items with
  | [] => inr []
  | item :: rest =>
      match matchesQuery query item with
      | inl e => inl e
      | inr keep =>
          match filterItems query rest with
          | inl e => inl e
          | inr kept => inr (if keep then item :: kept else kept)
          end
      end
  end.

(** [searchItems (query)].  The third component is the array the timeout
    registered at the end holds ([originalData]), when one is registered: an
    exception of [render] leaves the method before [setTimeout]. *)
Definition searchItems (query : string) (vs : VirtualScroller)
  : VirtualScroller * Completion * option (list Item) :=
  if String.eqb (trim query) "" then
    (fst (render vs), snd (render vs), None)
  else
    match filterItems query (data vs) with
    | inl e => (vs, Throw e, None)
    | inr filteredData =>
        let originalData := data vs in
        let vs := set_data filteredData vs in
        match snd (render vs) with
        | Normal => (fst (render vs), Normal, Some originalData)
        | Throw e => (fst (render vs), Throw e, None)
        end
    end.

(** The callback of the timeout, five seconds later. *)
Definition restoreData (originalData : list Item) (vs : VirtualScroller) :=
  set_data originalData vs.

(** The test of the search on an item that has both texts. *)
Definition matches (query : string) (item : Item) : bool :=
  includes (toLowerCase (default ""%string (title item))) (toLowerCase query)
  || includes (toLowerCase (default ""%string (description item))) (toLowerCase query).

Definition hasTexts (item : Item) : Prop :=
  is_Some (title item) ∧ is_Some (description item).

Lemma filterItems_total (query : string) (items : list Item) :
  Forall hasTexts items →
  filterItems query items = inr (List.filter (matches query) items).
Proof.
  induction 1 as [| item rest [[t Ht] [d Hd]] _ IH]; [reflexivity |].
  cbn [filterItems List.filter]. rewrite IH.
  unfold matchesQuery, matches. rewrite Ht, Hd. cbn.
  destruct (includes (toLowerCase t) (toLowerCase query)); reflexivity.
Qed.

Lemma filterItems_missing_title (query : string) (items : list Item) :
  Exists (λ item, title item = None) items →
  filterItems query items = inl TypeError.
Proof.
  induction 1 as [item rest Hnone | item rest _ IH].
  - cbn. unfold matchesQuery. by rewrite Hnone.
  - cbn. destruct (matchesQuery query item) as [[] | keep]; [reflexivity |].
    by rewrite IH.
Qed.

(** X12.  For a query that is not blank, on a list whose items all have a
    title and a description, [searchItems] leaves as the list exactly the
    items whose lowercased title or description includes the lowercased
    query, in their order, and calls [render] once. *)
Theorem searchItems_keeps_matches (query : string) (vs : VirtualScroller) :
  trim query ≠ ""%string → Forall hasTexts (data vs) →
  data (fst (fst (searchItems query vs))) = List.filter (matches query) (data vs)
  ∧ renderCalls (fst (fst (searchItems query vs))) = S (renderCalls vs)
  ∧ (∀ item, In item (data (fst (fst (searchItems query vs))))
             ↔ In item (data vs) ∧ matches query item = true).
Proof.
  intros Hq Hall. unfold searchItems.
  destruct (String.eqb_spec (trim query) "") as [Hblank | _]; [by destruct Hq |].
  rewrite (filterItems_total query (data vs) Hall).
  set (vs' := set_data _ vs).
  destruct (render_kept vs') as (_ & Hd & _).
  pose proof (render_counted vs') as Hr.
  assert (Hres : data (fst (render vs')) = List.filter (matches query) (data vs)
                 ∧ renderCalls (fst (render vs')) = S (renderCalls vs)).
  { by rewrite Hd, Hr. }
  destruct (snd (render vs')); cbn [fst];
    (split; [apply Hres | split; [apply Hres |]]);
    intros item; rewrite (proj1 Hres); apply filter_In.
Qed.

(** X13.  If some item has no title (one added by [addItem] without one,
    say), a search with a query that is not blank throws a [TypeError] out
    of the filter and changes nothing: no render, the list as it was, no
    timeout. *)
Theorem searchItems_missing_title (query : string) (vs : VirtualScroller) :
  trim query ≠ ""%string →
  Exists (λ item, title item = None) (data vs) →
  searchItems query vs = (vs, Throw TypeError, None).
Proof.
  intros Hq Hex. unfold searchItems.
  destruct (String.eqb_spec (trim query) "") as [Hblank | _]; [by destruct Hq |].
  by rewrite (filterItems_missing_title query (data vs) Hex).
Qed.

(** X14.  When the stored range is not empty and reaches past the filtered
    list, the [render] of the search throws; the method is left before the
    timeout is set, so the list stays the filtered one for good. *)
Theorem searchItems_short_result_throws (query : string) (vs : VirtualScroller)
    (w : ContentWrapper) (filteredData : list Item) :
  trim query ≠ ""%string →
  filterItems query (data vs) = inr filteredData →
  contentWrapper vs = Some w →
  0 ≤ startIndex vs < endIndex vs →
  Z.of_nat (length filteredData) < endIndex vs →
  snd (fst (searchItems query vs)) = Throw TypeError
  ∧ snd (searchItems query vs) = None
  ∧ data (fst (fst (searchItems query vs))) = filteredData.
Proof.
  intros Hq Hf Hw Hrange Hshort. unfold searchItems.
  destruct (String.eqb_spec (trim query) "") as [Hblank | _]; [by destruct Hq |].
  rewrite Hf.
  set (vs' := set_data filteredData vs).
  assert (Hthrow : snd (render vs') = Throw TypeError)
    by (by apply (render_past_end vs' w)).
  destruct (render_kept vs') as (_ & Hd & _).
  rewrite Hthrow. cbn [fst snd]. by rewrite Hd.
Qed.

(** X15.  Two searches, the second before the timeout of the first: each
    timeout puts back the list its search found, so when both have run the
    list is the result of the first search, not the list from before the
    searches. *)
Theorem searchItems_overlapping (q1 q2 : string)
    (vs vs1 vs2 : VirtualScroller) (t1 t2 : list Item) :
  searchItems q1 vs = (vs1, Normal, Some t1) →
  searchItems q2 vs1 = (vs2, Normal, Some t2) →
  t1 = data vs
  ∧ filterItems q1 (data vs) = inr (data vs1)
  ∧ data (restoreData t2 (restoreData t1 vs2)) = data vs1.
Proof.
  unfold searchItems. intros H1 H2.
  destruct (String.eqb (trim q1) ""); [discriminate H1 |].
  destruct (String.eqb (trim q2) ""); [discriminate H2 |].
  destruct (filterItems q1 (data vs)) as [e1 | f1]; [discriminate H1 |].
  destruct (filterItems q2 (data vs1)) as [e2 | f2]; [discriminate H2 |].
  cbn zeta in *.
  destruct (render_kept (set_data f1 vs)) as (_ & Hd1 & _).
  destruct (snd (render (set_data f1 vs))); [| discriminate H1].
  destruct (snd (render (set_data f2 vs1))); [| discriminate H2].
  injection H1 as Hvs1 Ht1. injection H2 as Hvs2 Ht2.
  subst t1 t2. rewrite <- Hvs1. cbn in Hd1.
  split; [reflexivity | split; [by rewrite Hd1 | reflexivity]].
Qed.

End Search.

(** A page with three items, for trying the search: the range is [0, 3). *)
Definition threeItems : VirtualScroller :=
  {| container := Some demoHost;
     contentWrapper := Some (mkWrapper 180 []);
     data :=
       [mkItem (Some 1) (Some "Alpha"%string) (Some "first"%string) None
          (Some "active"%string);
        mkItem (Some 2) (Some "Beta"%string) (Some "second"%string) None
          (Some "pending"%string);
        mkItem (Some 3) (Some "Gamma"%string) (Some "third"%string) None
          (Some "completed"%string)];
     itemHeight := 60; visibleItems := 10; scrollTop := 0;
     startIndex := 0; endIndex := 3;
     perfUtils := true; frameQueue := []; renderCalls := 0 |}.

(** The same page before its first scroll event: the range is [0, 0). *)
Definition threeItemsUnscrolled : VirtualScroller := set_range 0 0 threeItems.

(** Stand-ins for the host's string methods on the texts above. *)
Definition plainIncludes (s q : string) : bool :=
  match String.index 0 q s with Some _ => true | None => false end.

Definition plain (s : string) : string := s.

Lemma searchItems_keeps_matches_witness :
  map title (data (fst (fst (searchItems plain plain plainIncludes "eta" threeItems))))
  = [Some "Beta"%string].
Proof.
  destruct (searchItems_keeps_matches plain plain plainIncludes "eta" threeItems)
    as (Hdata & _).
  - intros Hc. discriminate Hc.
  - repeat constructor; eexists; reflexivity.
  - rewrite Hdata. reflexivity.
Defined.

Lemma searchItems_missing_title_witness :
  searchItems plain plain plainIncludes "a"
    (fst (addItem (mkItem None None None None None) threeItems))
  = (fst (addItem (mkItem None None None None None) threeItems), Throw TypeError, None).
Proof.
  apply searchItems_missing_title.
  - intros Hc. discriminate Hc.
  - vm_compute. do 3 apply Exists_cons_tl. apply Exists_cons_hd. reflexivity.
Defined.

Lemma searchItems_short_result_throws_witness :
  snd (fst (searchItems plain plain plainIncludes "eta" threeItems)) = Throw TypeError
  ∧ snd (searchItems plain plain plainIncludes "eta" threeItems) = None.
Proof.
  destruct (searchItems_short_result_throws plain plain plainIncludes "eta" threeItems
              (mkWrapper 180 [])
              [mkItem (Some 2) (Some "Beta"%string) (Some "second"%string) None
                 (Some "pending"%string)])
    as (Hthrow & Hnone & _).
  - intros Hc. discriminate Hc.
  - reflexivity.
  - reflexivity.
  - cbn. lia.
  - cbn. lia.
  - split; [exact Hthrow | exact Hnone].
Defined.

Definition searchedOnce : VirtualScroller :=
  fst (fst (searchItems plain plain plainIncludes "a" threeItemsUnscrolled)).

Definition searchedTwice : VirtualScroller :=
  fst (fst (searchItems plain plain plainIncludes "m" searchedOnce)).

Lemma searchItems_overlapping_witness :
  (searchItems plain plain plainIncludes "a" threeItemsUnscrolled
   = (searchedOnce, Normal, Some (data threeItemsUnscrolled))
   ∧ searchItems plain plain plainIncludes "m" searchedOnce
     = (searchedTwice, Normal, Some (data searchedOnce)))
  ∧ data (restoreData (data searchedOnce)
            (restoreData (data threeItemsUnscrolled) searchedTwice))
    = data searchedOnce.
Proof.
  assert (H1 : searchItems plain plain plainIncludes "a" threeItemsUnscrolled
               = (searchedOnce, Normal, Some (data threeItemsUnscrolled)))
    by (vm_compute; reflexivity).
  assert (H2 : searchItems plain plain plainIncludes "m" searchedOnce
               = (searchedTwice, Normal, Some (data searchedOnce)))
    by (vm_compute; reflexivity).
  split; [split; [exact H1 | exact H2] |].
  exact (proj2 (proj2 (searchItems_overlapping plain plain plainIncludes "a" "m"
                         _ _ _ _ _ H1 H2))).
Defined.

(** * [batchDOMUpdates] and the animation frames

    [batchDOMUpdates] of [scripts/utils.js], through which [render] mounts
    its fragment, with what it does to [document.body.style.display].
    [requestAnimationFramePolyfill] is taken on its first branch, the
    [window.requestAnimationFrame] of the host: a frame runs the callbacks
    requested before it, in order, and a callback requested while a frame
    runs waits for the next one.  Update functions are taken not to throw
    (the one [render] passes only appends). *)
Module Batching.
Section Batching.

(** What the update functions change (for [render], the wrapper). *)
Variable Dom : Type.

(** The two arrow functions of [batchDOMUpdates] as they sit in the queue:
    the outer one with the update it was given, the inner one with the
    display value it puts back. *)
Inductive Callback : Type :=
| Batched (updateFunction : Dom → Dom)
| Restore (originalDisplay : string).

Record Page : Type := mkPage {
  display : string;
  dom : Dom;
  callbacks : list Callback
}.

Definition requestAnimationFramePolyfill (cb : Callback) (p : Page) : Page :=
  mkPage (display p) (dom p) (callbacks p ++ [cb]).

Definition batchDOMUpdates (updateFunction : Dom → Dom) (p : Page) : Page :=
  requestAnimationFramePolyfill (Batched updateFunction) p.

Definition runCallback (p : Page) (cb : Callback) : Page :=
  match cb with
  | Batched updateFunction =>
      let originalDisplay := display p in
      let p := mkPage "none" (dom p) (callbacks p) in
      let p := mkPage (display p) (updateFunction (dom p)) (callbacks p) in
      requestAnimationFramePolyfill (Restore originalDisplay) p
  | Restore originalDisplay => mkPage originalDisplay (dom p) (callbacks p)
  end.

Definition animationFrame (p : Page) : Page :=
  foldl runCallback (mkPage (display p) (dom p) []) (callbacks p).

(** Several updates batched one after the other, none of them run yet. *)
Definition batchAll (updates : list (Dom → Dom)) (p : Page) : Page :=
  foldl (λ q u, batchDOMUpdates u q) p updates.

Lemma callbacks_batchAll (updates : list (Dom → Dom)) :
  ∀ p, batchAll updates p
       = mkPage (display p) (dom p) (callbacks p ++ map Batched updates).
Proof.
  induction updates as [| u updates IH]; intros p; cbn.
  - rewrite app_nil_r. by destruct p.
  - unfold batchAll in IH. rewrite IH. cbn. by rewrite <- app_assoc.
Qed.

Lemma run_batched (updates : list (Dom → Dom)) :
  ∀ (d : string) (x : Dom) (q : list Callback),
    foldl runCallback (mkPage d x q) (map Batched updates)
    = mkPage (match updates with [] => d | _ => "none"%string end)
        (foldl (λ y u, u y) x updates)
        (q ++ match updates with
              | [] => []
              | _ :: rest => Restore d :: map (λ _, Restore "none") rest
              end).
Proof.
  induction updates as [| u updates IH]; intros d x q; cbn.
  - by rewrite app_nil_r.
  - unfold requestAnimationFramePolyfill. cbn [display dom callbacks].
    rewrite IH. rewrite <- app_assoc. cbn.
    destruct updates as [| u' updates]; reflexivity.
Qed.

Lemma run_restores (n : list (Dom → Dom)) (d : string) (x : Dom) :
  foldl runCallback (mkPage d x []) (map (λ _, Restore "none") n)
  = mkPage (match n with [] => d | _ => "none"%string end) x [].
Proof.
  revert d. induction n as [| u n IH]; intros d; cbn; [reflexivity |].
  rewrite IH. by destruct n.
Qed.

(** X16.  Updates batched on a page with nothing waiting all run, in
    order, in the next frame, with the body hidden.  The frame after that
    gives the body its display back only if there was a single update: two
    or more updates batched before one frame leave [display] at ["none"],
    because every update after the first saves the ["none"] its
    predecessor has just set. *)
Theorem batched_updates_and_display (updates : list (Dom → Dom)) (p : Page) :
  callbacks p = [] → updates ≠ [] →
  dom (animationFrame (batchAll updates p)) = foldl (λ y u, u y) (dom p) updates
  ∧ display (animationFrame (batchAll updates p)) = "none"%string
  ∧ dom (animationFrame (animationFrame (batchAll updates p)))
    = foldl (λ y u, u y) (dom p) updates
  ∧ callbacks (animationFrame (animationFrame (batchAll updates p))) = []
  ∧ display (animationFrame (animationFrame (batchAll updates p)))
    = match updates with
      | [_] => display p
      | _ => "none"%string
      end.
Proof.
  intros Hq Hne.
  destruct updates as [| u rest]; [by destruct Hne |].
  assert (Hfirst : animationFrame (batchAll (u :: rest) p)
                   = mkPage "none" (foldl (λ y v, v y) (dom p) (u :: rest))
                       (Restore (display p) :: map (λ _, Restore "none") rest)).
  { rewrite callbacks_batchAll, Hq. cbn [app].
    unfold animationFrame. cbn [callbacks display dom].
    by rewrite run_batched. }
  rewrite Hfirst. cbn [dom display].
  split; [reflexivity | split; [reflexivity |]].
  unfold animationFrame. cbn [callbacks display dom foldl runCallback].
  rewrite run_restores. cbn [dom display callbacks].
  split; [reflexivity | split; [reflexivity |]].
  by destruct rest.
Qed.

End Batching.

Arguments mkPage {Dom} _ _ _.
Arguments display {Dom} _.
Arguments dom {Dom} _.
Arguments callbacks {Dom} _.
Arguments animationFrame {Dom} _.
Arguments batchAll {Dom} _ _.
Arguments batchDOMUpdates {Dom} _ _.

Lemma batched_updates_and_display_witness :
  display (animationFrame (animationFrame
             (batchAll [Nat.add 1; Nat.add 2] (mkPage "block" 0%nat []))))
  = "none"%string
  ∧ display (animationFrame (animationFrame
               (batchAll [Nat.add 1] (mkPage "block" 0%nat []))))
    = "block"%string.
Proof.
  split.
  - destruct (batched_updates_and_display nat [Nat.add 1; Nat.add 2]
                (mkPage "block" 0%nat []) eq_refl)
      as (_ & _ & _ & _ & Hd); [intros Hc; discriminate Hc | exact Hd].
  - destruct (batched_updates_and_display nat [Nat.add 1]
                (mkPage "block" 0%nat []) eq_refl)
      as (_ & _ & _ & _ & Hd); [intros Hc; discriminate Hc | exact Hd].
Defined.

End Batching.

(** * [throttle]

    [throttle (func, limit)] of [scripts/utils.js], which wraps the scroll
    and resize handlers.  Time is not modelled, only the order of events: a
    call of the throttled function, or the timeout that reopens it. *)
Module Throttle.
Section Throttle.

Variables World Arg : Type.

(** The wrapped function: it acts on the world and may throw. *)
Variable func : Arg → World → World * Completion.

(** The closure: [inThrottle], and the timeouts set and not yet run. *)
Record State : Type := mkState {
  world : World;
  inThrottle : bool;
  timers : nat
}.

Inductive Event : Type :=
| Invoke (arg : Arg)
| Timeout.

(** The function [throttle] returns.  An exception of [func] leaves it
    before [inThrottle = true] and before [setTimeout]. *)
Definition throttled (arg : Arg) (s : State) : State * Completion :=
  if inThrottle s then (s, Normal)
  else
    match func arg (world s) with
    | (w, Normal) => (mkState w true (S (timers s)), Normal)
    | (w, Throw e) => (mkState w (inThrottle s) (timers s), Throw e)
    end.

(** The arrow function given to [setTimeout], when one is waiting. *)
Definition timeout (s : State) : State :=
  match timers s with
  | O => s
  | S n => mkState (world s) false n
  end.

Definition step (s : State) (e : Event) : State :=
  match e with
  | Invoke arg => fst (throttled arg s)
  | Timeout => timeout s
  end.

Definition run (es : list Event) (s : State) : State := foldl step s es.

(** The calls of a sequence that reach [func]. *)
Fixpoint passed (es : list Event) (s : State) : nat :=
  match es with
  | [] => 0
  | Invoke arg :: es' =>
      (if inThrottle s then 0 else 1) + passed es' (fst (throttled arg s))
  | Timeout :: es' => passed es' (timeout s)
  end%nat.

Fixpoint timeouts (es : list Event) : nat :=
  match es with
  | [] => 0
  | Invoke _ :: es' => timeouts es'
  | Timeout :: es' => S (timeouts es')
  end.

(** A timeout is waiting exactly while the function is closed. *)
Definition consistent (s : State) : Prop :=
  timers s = if inThrottle s then 1%nat else 0%nat.

Lemma consistent_step (s : State) (e : Event) :
  consistent s → consistent (step s e).
Proof.
  unfold consistent. intros Hs. destruct e as [arg |]; cbn.
  - unfold throttled. destruct (inThrottle s) eqn:Hin.
    + cbn [fst]. by rewrite Hin.
    + destruct (func arg (world s)) as [w [| err]]; cbn.
      * by rewrite Hs.
      * exact Hs.
  - unfold timeout. destruct (timers s) as [| n] eqn:Ht.
    + by rewrite Ht.
    + cbn. destruct (inThrottle s); [congruence | discriminate].
Qed.

(** X17.  When [func] does not throw, at most one call reaches it before
    the first timeout and between two timeouts: from a fresh throttle, the
    calls that pass are never more than the timeouts that ran plus one, and
    never more than one timeout is waiting. *)
Theorem throttle_rate (es : list Event) :
  (∀ arg w, snd (func arg w) = Normal) →
  ∀ s, consistent s →
       (passed es s ≤ (if inThrottle s then 0 else 1) + timeouts es)%nat
       ∧ (timers (run es s) ≤ 1)%nat.
Proof.
  intros Hnormal.
  induction es as [| e es IH]; intros s Hs.
  - cbn. unfold consistent in Hs. split; [lia |]. rewrite Hs.
    destruct (inThrottle s); lia.
  - pose proof (consistent_step s e Hs) as Hs'.
    destruct (IH _ Hs') as [Hpass Htimers].
    split; [| exact Htimers].
    destruct e as [arg |]; cbn [passed timeouts step] in *.
    + unfold throttled in *. destruct (inThrottle s) eqn:Hin.
      * cbn [fst] in *. rewrite Hin in Hpass. lia.
      * specialize (Hnormal arg (world s)).
        destruct (func arg (world s)) as [w k]. cbn in Hnormal. subst k.
        cbn [fst inThrottle] in *. lia.
    + destruct (inThrottle (timeout s)); lia.
Qed.

(** X18.  A burst of calls on an open throttle: the first call runs [func]
    and, when it completes normally, the others are dropped, not kept for
    later.  The world after the burst is the one the first call left; the
    arguments of the later calls are lost. *)
Theorem throttle_drops_burst (first : Arg) (others : list Arg) (s : State) :
  inThrottle s = false →
  snd (func first (world s)) = Normal →
  world (run (Invoke first :: map Invoke others) s) = fst (func first (world s))
  ∧ passed (Invoke first :: map Invoke others) s = 1%nat.
Proof.
  intros Hopen Hnormal.
  assert (Hfirst : throttled first s
                   = (mkState (fst (func first (world s))) true (S (timers s)),
                      Normal)).
  { unfold throttled. rewrite Hopen.
    destruct (func first (world s)) as [w k]. cbn in Hnormal. by subst k. }
  assert (Hclosed : ∀ s', inThrottle s' = true →
            foldl step s' (map Invoke others) = s'
            ∧ passed (map Invoke others) s' = 0%nat).
  { induction others as [| a others IH]; intros s' Hin; [by split |].
    cbn. unfold throttled. rewrite Hin. cbn. by apply IH. }
  unfold run. cbn [foldl step passed]. rewrite Hfirst, Hopen. cbn [fst].
  destruct (Hclosed (mkState (fst (func first (world s))) true (S (timers s)))
              eq_refl) as [Hrun Hpass].
  rewrite Hrun, Hpass. by split.
Qed.

(** X19.  A call whose [func] throws leaves the throttle open: the world
    is as the failed call left it, no timeout is set, and the next call
    runs [func] again at once. *)
Theorem throttle_open_after_throw (arg next : Arg) (s : State) (err : JsError) :
  inThrottle s = false →
  snd (func arg (world s)) = Throw err →
  snd (throttled arg s) = Throw err
  ∧ inThrottle (fst (throttled arg s)) = false
  ∧ timers (fst (throttled arg s)) = timers s
  ∧ world (fst (throttled next (fst (throttled arg s))))
    = fst (func next (fst (func arg (world s)))).
Proof.
  intros Hopen Hthrow.
  assert (Hcall : throttled arg s
                  = (mkState (fst (func arg (world s))) false (timers s),
                     Throw err)).
  { unfold throttled. rewrite Hopen.
    destruct (func arg (world s)) as [w k]. cbn in Hthrow. by subst k. }
  rewrite Hcall. cbn [fst snd inThrottle timers].
  split; [reflexivity | split; [reflexivity | split; [reflexivity |]]].
  unfold throttled. cbn [inThrottle world].
  by destruct (func next (fst (func arg (world s)))) as [w' [| e]].
Qed.

End Throttle.

Arguments mkState {World} _ _ _.
Arguments world {World} _.
Arguments inThrottle {World} _.
Arguments timers {World} _.
Arguments Invoke {Arg} _.
Arguments Timeout {Arg}.

End Throttle.

(** The scroll listener of [setupEventListeners] on a page with
    [PerformanceUtils]: [handleScroll] behind [throttle (..., 16)]. *)
Definition throttledScroll :=
  Throttle.throttled VirtualScroller Z handleScroll.

Lemma scrollToItem_normal (i : Z) (vs : VirtualScroller) :
  snd (scrollToItem i vs) = Normal.
Proof.
  unfold scrollToItem. destruct (container vs); [| reflexivity].
  by destruct ((i <? 0) || (i >=? dataLength vs)).
Qed.

Definition sampleEvents : list (Throttle.Event Z) :=
  [Throttle.Invoke 0; Throttle.Invoke 60; Throttle.Timeout; Throttle.Invoke 120].

Lemma throttle_rate_witness :
  Nat.le (Throttle.passed VirtualScroller Z scrollToItem sampleEvents
            (Throttle.mkState demo false 0%nat))
    (1 + Throttle.timeouts Z sampleEvents)%nat.
Proof.
  exact (proj1 (Throttle.throttle_rate VirtualScroller Z scrollToItem sampleEvents
                  scrollToItem_normal (Throttle.mkState demo false 0%nat) eq_refl)).
Defined.

Lemma throttle_drops_burst_witness :
  scrollTop (Throttle.world
               (Throttle.run VirtualScroller Z handleScroll
                  (Throttle.Invoke 120 :: map Throttle.Invoke [180; 6000])
                  (Throttle.mkState demo false 0%nat)))
  = 120.
Proof.
  assert (Hn : snd (handleScroll 120 demo) = Normal) by (vm_compute; reflexivity).
  rewrite (proj1 (Throttle.throttle_drops_burst VirtualScroller Z handleScroll
                    120 [180; 6000] (Throttle.mkState demo false 0%nat) eq_refl Hn)).
  apply (handleScroll_post 120 demo).
Defined.

Lemma throttle_open_after_throw_witness :
  Throttle.inThrottle
    (fst (throttledScroll (-30) (Throttle.mkState scrolledToTop false 0%nat)))
  = false.
Proof.
  assert (Ht : snd (handleScroll (-30) scrolledToTop) = Throw TypeError)
    by (vm_compute; reflexivity).
  exact (proj1 (proj2 (Throttle.throttle_open_after_throw VirtualScroller Z
                         handleScroll (-30) 0
                         (Throttle.mkState scrolledToTop false 0%nat) TypeError
                         eq_refl Ht))).
Defined.

(** * [DOMOptimizer]

    The class of the DOM optimisation demo: the two ways of adding a
    thousand items, clearing, and its own small virtual list. *)
Module DOMOptimizer.

(** A row of the virtual list: its [style.top] and the two numbers of its
    text, ["Item n"] and ["n of total"]. *)
Record Row : Set := mkRow {
  rowTop : Z;
  rowNumber : Z;
  rowTotal : Z
}.

(** The children [#items-container] gets: the [div.item] of the add
    buttons with its text, and the viewport of [createVirtualList] with its
    height, its rows, and the [visibleItems] and [totalItems] its scroll
    listener holds. *)
Inductive Node : Set :=
| ItemDiv (text : string)
| Viewport (viewportHeight : Z) (rows : list Row) (visibleItems totalItems : Z).

Record Container : Set := mkContainer {
  styleHeight : option Z;
  children : list Node
}.

Record t : Set := mk {
  itemsContainer : option Container;
  itemCount : Z
}.

Definition appendChild (c : Container) (n : Node) : Container :=
  mkContainer (styleHeight c) (children c ++ [n]).

Definition appendFragment (c : Container) (fragment : list Node) : Container :=
  mkContainer (styleHeight c) (children c ++ fragment).

Definition itemDiv (n : Z) : Node := ItemDiv ("Item " ++ decimal n).

(** The loop of [addItemsSlow]: each item goes straight into the
    container. *)
Fixpoint slowLoop (n : nat) (i count : Z) (c : Container) : Container :=
  match n with
  | O => c
  | S n' => slowLoop n' (i + 1) count (appendChild c (itemDiv (count + i + 1)))
  end.

(** The loop of [addItemsOptimized]: each item goes into the fragment. *)
Fixpoint fragmentLoop (n : nat) (i count : Z) (fragment : list Node) : list Node :=
  match n with
  | O => fragment
  | S n' => fragmentLoop n' (i + 1) count (fragment ++ [itemDiv (count + i + 1)])
  end.

Definition addItemsSlow (st : t) : t :=
  match itemsContainer st with
  | None => st
  | Some c =>
      mk (Some (slowLoop (Z.to_nat 1000) 0 (itemCount st) c)) (itemCount st + 1000)
  end.

Definition addItemsOptimized (st : t) : t :=
  match itemsContainer st with
  | None => st
  | Some c =>
      let fragment := fragmentLoop (Z.to_nat 1000) 0 (itemCount st) [] in
      mk (Some (appendFragment c fragment)) (itemCount st + 1000)
  end.


(** The loop of [renderVisibleItems]; the fragment replaces the rows of the
    viewport. *)
Fixpoint rowsLoop (n : nat) (i totalItems : Z) (fragment : list Row) : list Row :=
  match n with
  | O => fragment
  | S n' => rowsLoop n' (i + 1) totalItems (fragment ++ [mkRow (i * 60) (i + 1) totalItems])
  end.

Definition renderVisibleItems (startIndex endIndex totalItems : Z) : list Row :=
  rowsLoop (Z.to_nat (endIndex - startIndex)) startIndex totalItems [].

(** [createVirtualList (totalItems, visibleItems = 20)] *)
Definition createVirtualList (totalItems : Z) (visibleItems : option Z) (st : t) : t :=
  match itemsContainer st with
  | None => st
  | Some c =>
      let visible := default 20 visibleItems in
      let viewport :=
        Viewport (totalItems * 60) (renderVisibleItems 0 visible totalItems)
          visible totalItems in
      mk (Some (mkContainer (Some (visible * 60)) [viewport])) (itemCount st)
  end.

(** The scroll listener of a viewport, for an event the throttle lets
    through. *)
Definition onScroll (scrollTop : Z) (n : Node) : Node :=
  match n with
  | ItemDiv text => ItemDiv text
  | Viewport h _ visible total =>
      let startIndex := scrollTop / 60 in
      let endIndex := Z.min (startIndex + visible) total in
      Viewport h (renderVisibleItems startIndex endIndex total) visible total
  end.

Definition scrollEvent (scrollTop : Z) (st : t) : t :=
  mk ((λ c, mkContainer (styleHeight c) (onScroll scrollTop <$> children c))
        <$> itemsContainer st)
     (itemCount st).

(** ** Properties *)

Lemma fragmentLoop_acc (n : nat) :
  ∀ i count fragment,
    fragmentLoop n i count fragment = fragment ++ fragmentLoop n i count [].
Proof.
  induction n as [| n IH]; intros i count fragment; cbn.
  - by rewrite app_nil_r.
  - rewrite IH. rewrite (IH _ _ [_]). by rewrite <- app_assoc.
Qed.

Lemma slowLoop_fragment (n : nat) :
  ∀ i count c,
    slowLoop n i count c = appendFragment c (fragmentLoop n i count []).
Proof.
  induction n as [| n IH]; intros i count c; cbn.
  - unfold appendFragment. rewrite app_nil_r. by destruct c.
  - rewrite IH. unfold appendFragment, appendChild. cbn.
    rewrite (fragmentLoop_acc n _ _ [_]). by rewrite <- app_assoc.
Qed.

(** X20.  The slow and the optimised way of adding items give the same
    page: the same children in the same order and the same [itemCount].
    Both do nothing without the container. *)
Theorem addItems_same_result (st : t) :
  addItemsSlow st = addItemsOptimized st
  ∧ (itemsContainer st = None → addItemsSlow st = st).
Proof.
  unfold addItemsSlow, addItemsOptimized.
  destruct (itemsContainer st) as [c |]; [| by split].
  split; [| intros Hc; discriminate Hc].
  by rewrite slowLoop_fragment.
Qed.

Lemma addItems_same_result_witness :
  itemsContainer (mk None 5) = None
  ∧ addItemsSlow (mk None 5) = mk None 5
  ∧ addItemsSlow (mk (Some (mkContainer None [])) 0)
    = addItemsOptimized (mk (Some (mkContainer None [])) 0).
Proof.
  split; [reflexivity | split].
  - exact (proj2 (addItems_same_result (mk None 5)) eq_refl).
  - exact (proj1 (addItems_same_result (mk (Some (mkContainer None [])) 0))).
Defined.





Definition emptyPage : t := mk (Some (mkContainer None [])) 0.


Lemma rowsLoop_acc (n : nat) :
  ∀ i total fragment,
    rowsLoop n i total fragment = fragment ++ rowsLoop n i total [].
Proof.
  induction n as [| n IH]; intros i total fragment; cbn.
  - by rewrite app_nil_r.
  - rewrite IH. rewrite (IH _ _ [_]). by rewrite <- app_assoc.
Qed.

Lemma rowsLoop_seqZ (n : nat) :
  ∀ i total,
    rowsLoop n i total []
    = (λ j, mkRow (j * 60) (j + 1) total) <$> seqZ i (Z.of_nat n).
Proof.
  induction n as [| n IH]; intros i total; [reflexivity |].
  cbn [rowsLoop]. rewrite rowsLoop_acc, IH.
  replace (Z.of_nat (S n)) with (Z.succ (Z.of_nat n)) by lia.
  rewrite (seqZ_cons i) by lia. cbn.
  replace (Z.pred (Z.succ (Z.of_nat n))) with (Z.of_nat n) by lia.
  reflexivity.
Qed.

Lemma renderVisibleItems_rows (startIndex endIndex total : Z) :
  renderVisibleItems startIndex endIndex total
  = (λ j, mkRow (j * 60) (j + 1) total) <$> seqZ startIndex (endIndex - startIndex).
Proof.
  unfold renderVisibleItems. rewrite rowsLoop_seqZ.
  destruct (Z.le_gt_cases 0 (endIndex - startIndex)) as [Hpos | Hneg].
  - by rewrite Z2Nat.id.
  - replace (Z.to_nat (endIndex - startIndex)) with 0%nat by lia.
    rewrite (seqZ_nil startIndex (endIndex - startIndex)) by lia. reflexivity.
Qed.

(** X22.  The rows a scroll event leaves in a viewport, for an offset that
    is not negative: they are the rows [start + 1 .. min (start + visible,
    total)] with [start = floor (scrollTop / 60)], each at [60] times its
    index; never more than [visibleItems] of them (there is no overscan
    buffer here), and none numbered above [totalItems]. *)
Theorem onScroll_rows (scrollTop h visible total : Z) (old : list Row) :
  0 ≤ scrollTop → 0 ≤ visible →
  ∃ rows,
    onScroll scrollTop (Viewport h old visible total)
    = Viewport h rows visible total
    ∧ Z.of_nat (length rows)
      = Z.max 0 (Z.min (scrollTop / 60 + visible) total - scrollTop / 60)
    ∧ Z.of_nat (length rows) ≤ visible
    ∧ (∀ (k : nat) (r : Row),
         rows !! k = Some r →
         rowNumber r = scrollTop / 60 + Z.of_nat k + 1
         ∧ rowTop r = (scrollTop / 60 + Z.of_nat k) * 60
         ∧ rowTotal r = total
         ∧ 1 ≤ rowNumber r ≤ total).
Proof.
  intros Hs Hv. eexists. split; [reflexivity |].
  assert (Hq : 0 ≤ scrollTop / 60) by (apply Z.div_pos; lia).
  rewrite renderVisibleItems_rows, length_fmap, length_seqZ.
  split; [lia | split; [lia |]].
  intros k r Hk. rewrite list_lookup_fmap in Hk.
  destruct (seqZ _ _ !! k) as [j |] eqn:Hj; [| discriminate Hk].
  apply lookup_seqZ in Hj as [-> Hlt]. injection Hk as <-. cbn. lia.
Qed.

Lemma onScroll_rows_witness :
  ∃ rows,
    onScroll 130 (Viewport 300 [] 3 5) = Viewport 300 rows 3 5
    ∧ Z.of_nat (length rows) = 3.
Proof.
  destruct (onScroll_rows 130 300 3 5 []) as (rows & Heq & Hlen & _); [lia | lia |].
  exists rows. split; [exact Heq |]. rewrite Hlen. reflexivity.
Defined.

(** X23.  [createVirtualList] does not clamp its first render: the viewport
    starts with [visibleItems] rows whatever [totalItems] is (rows numbered
    above [totalItems] included), while the first scroll event at the top
    leaves [min (visibleItems, totalItems)] rows.  The item count of the add
    buttons is left as it was although their items are gone. *)
Theorem createVirtualList_first_render (total : Z) (visibleItems : option Z)
    (st : t) (c : Container) :
  itemsContainer st = Some c → 0 ≤ default 20 visibleItems → 0 ≤ total →
  ∃ rows rows',
    createVirtualList total visibleItems st
    = mk (Some (mkContainer (Some (default 20 visibleItems * 60))
                  [Viewport (total * 60) rows (default 20 visibleItems) total]))
        (itemCount st)
    ∧ scrollEvent 0 (createVirtualList total visibleItems st)
      = mk (Some (mkContainer (Some (default 20 visibleItems * 60))
                    [Viewport (total * 60) rows' (default 20 visibleItems) total]))
          (itemCount st)
    ∧ Z.of_nat (length rows) = default 20 visibleItems
    ∧ Z.of_nat (length rows') = Z.min (default 20 visibleItems) total
    ∧ (rows = rows' ↔ default 20 visibleItems ≤ total).
Proof.
  intros Hc Hv Ht. unfold createVirtualList, scrollEvent. rewrite Hc. cbn.
  do 2 eexists. split; [reflexivity | split; [reflexivity |]].
  rewrite !renderVisibleItems_rows, !length_fmap, !length_seqZ.
  replace (0 `div` 60) with 0 by reflexivity.
  split; [lia | split; [lia |]].
  replace (Z.min (0 + default 20 visibleItems) total - 0)
    with (Z.min (default 20 visibleItems) total) by lia.
  replace (default 20 visibleItems - 0) with (default 20 visibleItems) by lia.
  split.
  - intros Heq. apply (f_equal length) in Heq.
    rewrite !length_fmap, !length_seqZ in Heq. lia.
  - intros Hle. by rewrite Z.min_l.
Qed.

Lemma createVirtualList_first_render_witness :
  ∃ rows,
    createVirtualList 5 None emptyPage
    = mk (Some (mkContainer (Some 1200) [Viewport 300 rows 20 5])) 0
    ∧ Z.of_nat (length rows) = 20.
Proof.
  destruct (createVirtualList_first_render 5 None emptyPage (mkContainer None [])
              eq_refl) as (rows & rows' & Heq & _ & Hlen & _); [cbn; lia | lia |].
  exists rows. split; [exact Heq | exact Hlen].
Defined.

End DOMOptimizer.

(** * [DOMMutationObserver]: the log of mutations *)
Module MutationLog.

(** What [recordMutation] keeps of a mutation record, with the time it
    read from the clock. *)
Record Entry : Set := mkEntry {
  type : string;
  target : string;
  addedNodes : nat;
  removedNodes : nat;
  timestamp : Q
}.

(** [recordMutation (mutation)]: [push], then [shift] when more than a
    hundred are kept. *)
Definition recordMutation (log : list Entry) (e : Entry) : list Entry :=
  let log := log ++ [e] in
  if (100 <? length log)%nat then tail log else log.

(** The callback of the observer: [mutations.forEach (...)]. *)
Definition recordAll (log : list Entry) (es : list Entry) : list Entry :=
  foldl recordMutation log es.

(** The last [k] elements of a list. *)
Definition lastN {A : Type} (k : nat) (l : list A) : list A :=
  drop (length l - k) l.

Lemma recordMutation_lastN (log : list Entry) (e : Entry) :
  (length log ≤ 100)%nat → recordMutation log e = lastN 100 (log ++ [e]).
Proof.
  intros Hlen. unfold recordMutation, lastN. rewrite length_app. cbn [length].
  destruct (Nat.ltb_spec 100 (length log + 1)) as [Hfull | Hroom].
  - replace (length log + 1 - 100)%nat with 1%nat by lia.
    by destruct (log ++ [e]).
  - by replace (length log + 1 - 100)%nat with 0%nat by lia.
Qed.

Lemma lastN_app_lastN {A : Type} (k : nat) (a b : list A) :
  lastN k (lastN k a ++ b) = lastN k (a ++ b).
Proof.
  unfold lastN. rewrite !length_app, length_drop.
  rewrite <- (drop_app_le a b (length a - k)) by lia.
  rewrite drop_drop. f_equal. lia.
Qed.

Lemma length_lastN {A : Type} (k : nat) (l : list A) :
  length (lastN k l) = Nat.min k (length l).
Proof. unfold lastN. rewrite length_drop. lia. Qed.

(** X24.  The log never holds more than a hundred entries, and what it
    holds is always the latest: after any number of mutations it is the
    last hundred of everything recorded (the old log followed by the new
    entries), in order. *)
Theorem log_keeps_latest (es : list Entry) :
  ∀ log, (length log ≤ 100)%nat →
         recordAll log es = lastN 100 (log ++ es)
         ∧ (length (recordAll log es) ≤ 100)%nat.
Proof.
  induction es as [| e es IH]; intros log Hlen.
  - cbn. rewrite app_nil_r. unfold lastN.
    replace (length log - 100)%nat with 0%nat by lia. by split.
  - cbn [recordAll foldl]. fold (recordAll (recordMutation log e) es).
    rewrite (recordMutation_lastN log e Hlen).
    destruct (IH (lastN 100 (log ++ [e]))) as [Heq Hbound].
    { rewrite length_lastN. lia. }
    split; [| exact Hbound].
    rewrite Heq, lastN_app_lastN. by rewrite <- app_assoc.
Qed.

Definition sampleEntry (n : nat) : Entry :=
  mkEntry "childList" "DIV" n 0 0.

Lemma log_keeps_latest_witness :
  (length (recordAll [] (sampleEntry <$> seq 0 150)) ≤ 100)%nat
  ∧ addedNodes <$> head (recordAll [] (sampleEntry <$> seq 0 150)) = Some 50%nat.
Proof.
  destruct (log_keeps_latest (sampleEntry <$> seq 0 150) []) as [Heq Hbound];
    [cbn; lia |].
  split; [exact Hbound |]. rewrite Heq. vm_compute. reflexivity.
Defined.

End MutationLog.

(** * [DOMQueryCache] *)
Module QueryCache.

(** Elements are told apart by identity. *)
Definition Element : Set := nat.

Record Entry : Set := mkEntry {
  element : Element;
  timestamp : Q
}.

(** What the cache asks of the document. *)
Record Document : Type := mkDocument {
  querySelector : string → option Element;
  contains : Element → bool
}.

(** The [Map] of the cache keeps its keys in insertion order; [cacheSize]
    is the field of that name. *)
Record t : Set := mk {
  cache : list (string * Entry);
  cacheSize : nat
}.

(** [Map.prototype.get], [delete] and [set]: a key that is already there
    keeps its place when set again. *)
Fixpoint mapGet (k : string) (m : list (string * Entry)) : option Entry :=
  match m with
  | [] => None
  | (k', v) :: m' => if String.eqb k' k then Some v else mapGet k m'
  end.

Fixpoint mapDelete (k : string) (m : list (string * Entry)) : list (string * Entry) :=
  match m with
  | [] => []
  | (k', v) :: m' => if String.eqb k' k then mapDelete k m' else (k', v) :: mapDelete k m'
  end.

Fixpoint mapSet (k : string) (v : Entry) (m : list (string * Entry))
  : list (string * Entry) :=
  match m with
  | [] => [(k, v)]
  | (k', v') :: m' =>
      if String.eqb k' k then (k', v) :: m' else (k', v') :: mapSet k v m'
  end.

(** [set (selector, element)], at the time [now] of the clock. *)
Definition set (selector : string) (el : Element) (now : Q) (c : t) : t :=
  let m :=
    if (cacheSize c <=? length (cache c))%nat then
      match cache c with
      | [] => cache c
      | (firstKey, _) :: _ => mapDelete firstKey (cache c)
      end
    else cache c in
  mk (mapSet selector (mkEntry el now) m) (cacheSize c).

(** [get (selector)]: the element returned and the cache afterwards. *)
Definition get (selector : string) (doc : Document) (now : Q) (c : t)
  : option Element * t :=
  let miss (c' : t) :=
    match querySelector doc selector with
    | Some el => (Some el, set selector el now c')
    | None => (None, c')
    end in
  match mapGet selector (cache c) with
  | Some cached =>
      if contains doc (element cached) then (Some (element cached), c)
      else miss (mk (mapDelete selector (cache c)) (cacheSize c))
  | None => miss c
  end.

Definition clearCache (c : t) : t := mk [] (cacheSize c).

(** ** Properties *)

Definition keys (m : list (string * Entry)) : list string := fst <$> m.

(** The cache as the class keeps it: no key twice, and within its size. *)
Definition ok (c : t) : Prop :=
  NoDup (keys (cache c)) ∧ (length (cache c) ≤ cacheSize c)%nat.

Lemma mapGet_None (k : string) (m : list (string * Entry)) :
  mapGet k m = None ↔ k ∉ keys m.
Proof.
  induction m as [| [k' v] m IH]; cbn.
  - split; [intros _; apply not_elem_of_nil | reflexivity].
  - destruct (String.eqb_spec k' k) as [-> | Hne].
    + split; [discriminate | intros Hnot; destruct Hnot; apply list_elem_of_here].
    + rewrite IH. rewrite not_elem_of_cons. split; [| tauto].
      intros Hnot. split; [| exact Hnot]. intros ->. by destruct Hne.
Qed.

Lemma mapDelete_absent (k : string) (m : list (string * Entry)) :
  k ∉ keys m → mapDelete k m = m.
Proof.
  induction m as [| [k' v] m IH]; cbn; [reflexivity |].
  rewrite not_elem_of_cons. intros [Hne Hnot].
  destruct (String.eqb_spec k' k) as [-> | _]; [by destruct Hne |].
  by rewrite IH.
Qed.

Lemma keys_mapDelete (k : string) (m : list (string * Entry)) :
  (k ∉ keys (mapDelete k m))
  ∧ (∀ k', k' ∈ keys (mapDelete k m) → k' ∈ keys m)
  ∧ (NoDup (keys m) → NoDup (keys (mapDelete k m)))
  ∧ (length (mapDelete k m) ≤ length m)%nat.
Proof.
  induction m as [| [k1 v] m (Hnot & Hsub & Hnd & Hlen)]; cbn.
  - repeat split; [apply not_elem_of_nil | tauto | tauto | lia].
  - destruct (String.eqb_spec k1 k) as [-> | Hne]; cbn.
    + repeat split; [exact Hnot | | | lia].
      * intros k' Hin. apply list_elem_of_further. by apply Hsub.
      * intros Hnd'. apply Hnd. by apply NoDup_cons_1_2 in Hnd'.
    + repeat split; [| | | lia].
      * rewrite not_elem_of_cons. by split.
      * intros k' Hin. apply elem_of_cons in Hin as [-> | Hin];
          [apply list_elem_of_here | apply list_elem_of_further; by apply Hsub].
      * intros Hnd'. apply NoDup_cons in Hnd' as [Hk1 Hnd'].
        apply NoDup_cons. split; [| by apply Hnd].
        intros Hin. apply Hk1. by apply Hsub.
Qed.

Lemma mapSet_absent (k : string) (v : Entry) (m : list (string * Entry)) :
  k ∉ keys m → mapSet k v m = m ++ [(k, v)].
Proof.
  induction m as [| [k' v'] m IH]; cbn; [reflexivity |].
  rewrite not_elem_of_cons. intros [Hne Hnot].
  destruct (String.eqb_spec k' k) as [-> | _]; [by destruct Hne |].
  by rewrite IH.
Qed.

Lemma mapSet_present (k : string) (v : Entry) (m : list (string * Entry)) :
  k ∈ keys m → keys (mapSet k v m) = keys m.
Proof.
  induction m as [| [k' v'] m IH]; cbn; [by intros ?%elem_of_nil |].
  intros Hin. destruct (String.eqb_spec k' k) as [-> | Hne]; [reflexivity |].
  cbn. f_equal. apply IH.
  apply elem_of_cons in Hin as [-> | Hin]; [by destruct Hne | exact Hin].
Qed.


Lemma mapGet_Some (k : string) (v : Entry) (m : list (string * Entry)) :
  mapGet k m = Some v → k ∈ keys m.
Proof.
  induction m as [| [k' v'] m IH]; cbn; [discriminate |].
  destruct (String.eqb_spec k' k) as [-> | _].
  - intros _. apply list_elem_of_here.
  - intros Hget. apply list_elem_of_further. by apply IH.
Qed.

Lemma keys_mapSet (k : string) (v : Entry) (m : list (string * Entry)) :
  keys (mapSet k v m) = keys m
  ∨ ((k ∉ keys m) ∧ keys (mapSet k v m) = keys m ++ [k]).
Proof.
  destruct (mapGet k m) as [old |] eqn:Hget.
  - left. apply mapSet_present. by apply (mapGet_Some k old).
  - right. apply mapGet_None in Hget. split; [exact Hget |].
    rewrite mapSet_absent by exact Hget. unfold keys. by rewrite fmap_app.
Qed.

Lemma mapDelete_first (k : string) (v : Entry) (m : list (string * Entry)) :
  NoDup (keys ((k, v) :: m)) → mapDelete k ((k, v) :: m) = m.
Proof.
  cbn. intros Hnd. apply NoDup_cons in Hnd as [Hnot _].
  rewrite String.eqb_refl. by apply mapDelete_absent.
Qed.

Lemma ok_set (selector : string) (el : Element) (now : Q) (c : t) :
  (0 < cacheSize c)%nat → ok c → ok (set selector el now c).
Proof.
  intros Hsize [Hnd Hlen]. unfold ok, set. cbn [cache cacheSize].
  set (m := if (cacheSize c <=? length (cache c))%nat then _ else _).
  assert (Hm : NoDup (keys m) ∧ (length m < cacheSize c)%nat).
  { unfold m. destruct (Nat.leb_spec (cacheSize c) (length (cache c))) as [Hfull | Hroom].
    - destruct (cache c) as [| [k v] rest] eqn:Hcache; [cbn in *; split; [exact Hnd | lia] |].
      rewrite (mapDelete_first k v rest Hnd).
      apply NoDup_cons in Hnd as [_ Hnd]. cbn in Hlen. split; [exact Hnd | lia].
    - by split. }
  destruct Hm as [Hndm Hlenm].
  assert (Hlenkeys : ∀ l : list (string * Entry), length (keys l) = length l)
    by (intros l; unfold keys; apply length_fmap).
  destruct (keys_mapSet selector (mkEntry el now) m) as [Hsame | [Hnot Hnew]].
  - split; [by rewrite Hsame |]. rewrite <- Hlenkeys, Hsame, Hlenkeys. lia.
  - split.
    + rewrite Hnew. apply NoDup_app.
      split; [exact Hndm | split; [| apply NoDup_singleton]].
      intros k Hk Hk'. apply list_elem_of_singleton in Hk'. by subst k.
    + rewrite <- Hlenkeys, Hnew, length_app, Hlenkeys. cbn. lia.
Qed.

(** X25.  With a positive [cacheSize], [get] and [set] keep the cache
    within its size and without a key twice, whatever the document
    answers. *)
Theorem cache_stays_bounded (selector : string) (doc : Document) (el : Element)
    (now : Q) (c : t) :
  (0 < cacheSize c)%nat → ok c →
  ok (snd (get selector doc now c)) ∧ ok (set selector el now c)
  ∧ cacheSize (snd (get selector doc now c)) = cacheSize c.
Proof.
  intros Hsize Hok. split; [| split; [by apply ok_set |]].
  - unfold get.
    assert (Hdel : ok (mk (mapDelete selector (cache c)) (cacheSize c))).
    { destruct Hok as [Hnd Hlen].
      destruct (keys_mapDelete selector (cache c)) as (_ & _ & Hnd' & Hlen').
      split; cbn; [by apply Hnd' | lia]. }
    destruct (mapGet selector (cache c)) as [cached |].
    + destruct (contains doc (element cached)); [exact Hok |].
      destruct (querySelector doc selector); [by apply ok_set | exact Hdel].
    + destruct (querySelector doc selector); [by apply ok_set | exact Hok].
  - unfold get.
    destruct (mapGet selector (cache c)) as [cached |];
      [destruct (contains doc (element cached)); [reflexivity |] |];
      by destruct (querySelector doc selector).
Qed.



Definition sampleDocument : Document :=
  mkDocument (λ s, if String.eqb s "#a" then Some 1%nat
                   else if String.eqb s "#b" then Some 2%nat else None)
             (λ e, true).

Definition sampleCache : t := mk [("#a"%string, mkEntry 1%nat 0)] 1%nat.

Lemma cache_stays_bounded_witness :
  ok (snd (get "#b" sampleDocument 5 sampleCache)).
Proof.
  refine (proj1 (cache_stays_bounded "#b" sampleDocument 0%nat 5 sampleCache _ _)).
  - cbn. lia.
  - split; cbn; [| lia]. apply NoDup_singleton.
Defined.



End QueryCache.
